(** * OpenMV frame-buffer stack allocator ([src/omv/fb_alloc.c])

    A shallow embedding of [fb_alloc_init0], [fb_alloc], [fb_alloc0] and
    [fb_free], with the properties of the scratch arena stated over it.
    The integer intrinsics of the webassembly port ([__CLZ], [__SSAT],
    [__ROR], [__RBIT], [__USAD8] and others) are embedded and specified in
    the second part.

    Conventions of the embedding.
    - A [uint32_t] is a [Z] in [0, 2^32); every arithmetic operation the C
      code performs on one is followed by its reduction modulo 2^32.
    - The targets are 32-bit machines: a pointer to [char] is an address in
      [0, 2^32), and pointer arithmetic is reduced modulo 2^32 like the
      arithmetic of [uint32_t]; pointers are compared as unsigned numbers.
    - Memory is byte addressed and little endian (the Cortex-M targets).
      Only the addresses of the RAM that holds the arena can be accessed:
      a load or a store elsewhere ends the program with a fault.
    - [nlr_raise] does not return: a call ends by returning a value, by
      raising, or with a fault, and in each case the machine state at that
      point is kept, so that what was written before stays visible. *)

From Stdlib Require Import ZArith Lia String List Bool.
Import ListNotations.
Local Open Scope Z_scope.

(** ** Machine integers and memory *)

Definition UINT32_MOD : Z := 2 ^ 32.

(** Reduction of an integer result to [uint32_t]. *)
Definition u32 (x : Z) : Z := x mod UINT32_MOD.

(** The values a [uint32_t] argument can take. *)
Definition is_uint32 (x : Z) : Prop := 0 <= x < UINT32_MOD.

(** [sizeof(uint32_t)]. *)
Definition sizeof_uint32 : Z := 4.

Definition NULL : Z := 0.

(** Byte-addressed memory; a cell is read as a byte. *)
Definition memory : Type := Z -> Z.

Definition byte_of (x : Z) : Z := x mod 256.

(** Reading the [uint32_t] stored at address [a]. *)
Definition load32 (m : memory) (a : Z) : Z :=
  byte_of (m a)
  + 2 ^ 8 * byte_of (m (a + 1))
  + 2 ^ 16 * byte_of (m (a + 2))
  + 2 ^ 24 * byte_of (m (a + 3)).

(** Writing the [uint32_t] value [v] at address [a]. *)
Definition store32 (m : memory) (a v : Z) : memory :=
  fun x =>
    if x =? a then byte_of v
    else if x =? a + 1 then byte_of (v / 2 ^ 8)
    else if x =? a + 2 then byte_of (v / 2 ^ 16)
    else if x =? a + 3 then byte_of (v / 2 ^ 24)
    else m x.

(** The memory after the [n] bytes from [p] have been set to [c]. *)
Definition memset (m : memory) (p c n : Z) : memory :=
  fun x => if (p <=? x) && (x <? p + n) then byte_of c else m x.

(** ** Allocator state and control flow *)

(** The file-scope variable [pointer] and the memory it points into. *)
Record state : Type := mkState {
  pointer : Z;
  mem : memory
}.

(** What [nlr_raise] carries. *)
Inductive exn : Type :=
| MemoryError (msg : string).

(** How a call ends: it returns, it raises, or an access outside the RAM
    stops the machine. *)
Inductive outcome (A : Type) : Type :=
| Ret (v : A) (s : state)
| Raise (e : exn) (s : state)
| Fault (s : state).
Arguments Ret {A} v s.
Arguments Raise {A} e s.
Arguments Fault {A} s.

Definition M (A : Type) : Type := state -> outcome A.

Definition ret {A} (v : A) : M A := fun s => Ret v s.

Definition bind {A B} (c : M A) (k : A -> M B) : M B :=
  fun s =>
    match c s with
    | Ret v s' => k v s'
    | Raise e s' => Raise e s'
    | Fault s' => Fault s'
    end.

Notation "x <- c ;; k" := (bind c (fun x => k))
  (at level 61, c at next level, right associativity).

Definition final_state {A} (o : outcome A) : state :=
  match o with
  | Ret _ s => s
  | Raise _ s => s
  | Fault s => s
  end.

(** ** The memory layout

    What the linker script and [framebuffer.h] fix and the allocator only
    reads: the RAM, a range of 32-bit addresses that ends at or below the
    last word of the address space, and inside it the address [&_fs_cache]
    the stack starts from (the spec's base) and the end [FB_PIXELS()] of the
    live frame buffer (the spec's floor). Nothing orders the floor and the
    base. *)
Record layout : Type := mkLayout {
  ram_start : Z;
  ram_end : Z;
  FB_PIXELS : Z;
  _fs_cache : Z;
  layout_wf :
    (0 <=? ram_start)
    && (ram_start <=? FB_PIXELS) && (FB_PIXELS <=? ram_end)
    && (ram_start <=? _fs_cache) && (_fs_cache <=? ram_end)
    && (ram_end <=? UINT32_MOD - 4) = true
}.

(** The [n] bytes from address [a] lie in the RAM. *)
Definition in_ram (L : layout) (a n : Z) : bool :=
  (ram_start L <=? a) && (a + n <=? ram_end L).

Definition get_pointer : M Z := fun s => Ret (pointer s) s.

Definition set_pointer (p : Z) : M unit :=
  fun s => Ret tt (mkState p (mem s)).

(** A 32-bit load. *)
Definition read32 (L : layout) (a : Z) : M Z :=
  fun s => if in_ram L a 4 then Ret (load32 (mem s) a) s else Fault s.

(** A 32-bit store. *)
Definition write32 (L : layout) (a v : Z) : M unit :=
  fun s =>
    if in_ram L a 4
    then Ret tt (mkState (pointer s) (store32 (mem s) a v))
    else Fault s.

(** [memset(p, c, n)], with [n] converted to [size_t]: it writes upwards
    from [p] and faults at the first byte outside the RAM, after the bytes
    before it have been written. *)
Definition memset_ram (L : layout) (p c n : Z) : M unit :=
  fun s =>
    let n := u32 n in
    if n =? 0 then Ret tt s
    else if in_ram L p n
    then Ret tt (mkState (pointer s) (memset (mem s) p c n))
    else
      let written := if ram_start L <=? p then ram_end L - p else 0 in
      Fault (mkState (pointer s) (memset (mem s) p c written)).

(** ** The allocator *)

Definition fb_alloc_fail {A} : M A :=
  fun s => Raise (MemoryError "FB Alloc Collision!!!") s.

Definition fb_alloc_init0 (L : layout) : M unit :=
  set_pointer (_fs_cache L).

(** [((size + sizeof(uint32_t) - 1) / sizeof(uint32_t)) * sizeof(uint32_t)]
    in 32-bit unsigned arithmetic. *)
Definition round_up (size : Z) : Z :=
  u32 (u32 (u32 (u32 (size + sizeof_uint32) - 1) / sizeof_uint32)
       * sizeof_uint32).

Definition fb_alloc (L : layout) (size : Z) : M Z :=
  if size =? 0 then ret NULL
  else
    let size := round_up size in
    pointer <- get_pointer ;;
    let result := u32 (pointer - size) in
    let new_pointer := u32 (result - sizeof_uint32) in
    if new_pointer <? FB_PIXELS L then fb_alloc_fail
    else
      _ <- write32 L new_pointer (u32 (size + sizeof_uint32)) ;;
      _ <- set_pointer new_pointer ;;
      ret result.

Definition fb_alloc0 (L : layout) (size : Z) : M Z :=
  mem <- fb_alloc L size ;;
  _ <- memset_ram L mem 0 size ;;
  ret mem.

Definition fb_free (L : layout) : M unit :=
  pointer <- get_pointer ;;
  if pointer <? _fs_cache L
  then
    size <- read32 L pointer ;;
    set_pointer (u32 (pointer + size))
  else ret tt.

(** ** Call sequences *)

(** The calls a client can make on the allocator. *)
Inductive call : Type :=
| CallInit
| CallAlloc (size : Z)
| CallAlloc0 (size : Z)
| CallFree.

(** The arguments are [uint32_t]. *)
Definition call_typed (c : call) : Prop :=
  match c with
  | CallAlloc size | CallAlloc0 size => is_uint32 size
  | CallInit | CallFree => True
  end.

Definition run_call (L : layout) (c : call) : M unit :=
  match c with
  | CallInit => fb_alloc_init0 L
  | CallAlloc size => _ <- fb_alloc L size ;; ret tt
  | CallAlloc0 size => _ <- fb_alloc0 L size ;; ret tt
  | CallFree => fb_free L
  end.

(** A list of calls made one after the other. *)
Fixpoint run_calls (L : layout) (cs : list call) : M unit :=
  match cs with
  | [] => ret tt
  | c :: rest => _ <- run_call L c ;; run_calls L rest
  end.

(** States reached from the static initialiser [pointer = &_fs_cache]
    (over any memory contents) by calls that return, that is, that end
    neither in [fb_alloc_fail] nor with a fault. *)
Inductive reachable (L : layout) : state -> Prop :=
| reach_boot (m : memory) : reachable L (mkState (_fs_cache L) m)
| reach_call (s s' : state) (c : call) :
    reachable L s -> call_typed c -> run_call L c s = Ret tt s' ->
    reachable L s'.

(** [fb_alloc] on each size of a list in turn. *)
Fixpoint alloc_seq (L : layout) (sizes : list Z) : M unit :=
  match sizes with
  | [] => ret tt
  | size :: rest => _ <- fb_alloc L size ;; alloc_seq L rest
  end.

(** [n] calls of [fb_free]. *)
Fixpoint free_n (L : layout) (n : nat) : M unit :=
  match n with
  | O => ret tt
  | S k => _ <- fb_free L ;; free_n L k
  end.

(** ** Requests that stay inside the address space

    The bytes one allocation of [size] bytes takes from the arena: the
    payload padded to a multiple of 4, and the 4-byte header. *)
Definition block_bytes (size : Z) : Z := 4 * ((size + 3) / 4) + 4.

Definition total_bytes (sizes : list Z) : Z :=
  fold_right (fun size acc => block_bytes size + acc) 0 sizes.

(** A size whose block is no larger than the address of the floor: taking
    the block from a cursor at or above the floor cannot wrap around
    address 0. *)
Definition safe_size (L : layout) (size : Z) : Prop :=
  0 <= size /\ block_bytes size <= FB_PIXELS L.

Definition safe_call (L : layout) (c : call) : Prop :=
  match c with
  | CallAlloc size | CallAlloc0 size => safe_size L size
  | CallInit | CallFree => True
  end.

(** States reached from the static initialiser by returning calls whose
    sizes are safe. *)
Inductive safely_reachable (L : layout) : state -> Prop :=
| safe_boot (m : memory) : safely_reachable L (mkState (_fs_cache L) m)
| safe_step (s s' : state) (c : call) :
    safely_reachable L s -> safe_call L c -> run_call L c s = Ret tt s' ->
    safely_reachable L s'.

(** [chain L m p]: from cursor [p] up to [&_fs_cache], memory [m] holds a
    sequence of blocks, each starting with a header word that is the
    distance to the next block. *)
Inductive chain (L : layout) (m : memory) : Z -> Prop :=
| chain_top : chain L m (_fs_cache L)
| chain_blk (p q : Z) :
    FB_PIXELS L <= p -> p + sizeof_uint32 <= q -> (q - p) mod 4 = 0 ->
    load32 m p = q - p ->
    chain L m q -> chain L m p.

(** Call lists in which every allocation is matched by a later [fb_free]
    and the pairs are properly nested, the way scoped users of the arena
    call it; the sizes are safe and not 0. *)
Inductive nested (L : layout) : list call -> Prop :=
| nested_nil : nested L []
| nested_alloc (size : Z) (inner : list call) :
    size <> 0 -> safe_size L size -> nested L inner ->
    nested L (CallAlloc size :: inner ++ [CallFree])
| nested_alloc0 (size : Z) (inner : list call) :
    size <> 0 -> safe_size L size -> nested L inner ->
    nested L (CallAlloc0 size :: inner ++ [CallFree])
| nested_app (first second : list call) :
    nested L first -> nested L second -> nested L (first ++ second).

(** ** Marks

    [fb_alloc_mark] and [fb_alloc_free_till_mark] are called by the clients
    of the allocator but are not defined in [fb_alloc.c]. *)

(** Modelled from the spec: the mark stack, missing from the sources; a
    secondary stack of saved cursor values next to the allocator state. *)
Record arena : Type := mkArena {
  core : state;
  marks : list Z
}.

(** Modelled from the spec: [fb_alloc_mark] is missing from the sources;
    mark() pushes the current cursor onto an internal mark stack. *)
Definition fb_alloc_mark (a : arena) : arena :=
  mkArena (core a) (pointer (core a) :: marks a).

(** How the release loop ends. *)
Inductive release (A : Type) : Type :=
| Released (a : A)
| OutOfFuel
| Crashed.
Arguments Released {A} a.
Arguments OutOfFuel {A}.
Arguments Crashed {A}.

(** Modelled from the spec: the loop of [fb_alloc_free_till_mark], missing
    from the sources; it repeatedly pops allocations as [fb_free] does until
    the cursor equals the mark [m]. *)
Fixpoint pop_until (L : layout) (fuel : nat) (m : Z) (s : state)
  : release state :=
  match fuel with
  | O => OutOfFuel
  | S k =>
      if pointer s =? m then Released s
      else
        match fb_free L s with
        | Ret _ s' => pop_until L k m s'
        | Raise _ _ | Fault _ => Crashed
        end
  end.

(** Modelled from the spec: [fb_alloc_free_till_mark] is missing from the
    sources; release_to_mark() pops the most recent mark value and pops
    allocations until the cursor equals it; on an empty mark stack it is a
    no-op. *)
Definition fb_alloc_free_till_mark (L : layout) (fuel : nat) (a : arena)
  : release arena :=
  match marks a with
  | [] => Released a
  | m :: rest =>
      match pop_until L fuel m (core a) with
      | Released s => Released (mkArena s rest)
      | OutOfFuel => OutOfFuel
      | Crashed => Crashed
      end
  end.

(** [fb_alloc] on the allocator state of an arena; [None] when it does not
    return. *)
Definition arena_alloc (L : layout) (size : Z) (a : arena)
  : option (Z * arena) :=
  match fb_alloc L size (core a) with
  | Ret p s => Some (p, mkArena s (marks a))
  | Raise _ _ | Fault _ => None
  end.

(** ** Concrete arenas used in examples

    The region of the spec's example: the floor at 1000 and the base at
    2000, in a RAM from 0 to 4096 that holds zeros. *)

Definition example_layout : layout := mkLayout 0 4096 1000 2000 eq_refl.

Definition zero_mem : memory := fun _ => 0.

Definition boot_state : state := mkState 2000 zero_mem.

(** The state after [fb_alloc(10)] in the example region. *)
Definition example_state : state :=
  final_state (fb_alloc example_layout 10 boot_state).

(** A memory whose word at 1952 holds 1, all other cells 0. *)
Definition one_at_1952 : memory := fun x => if x =? 1952 then 1 else 0.

(** ** CMSIS intrinsics of the webassembly port
    ([src/omv/ports/webassembly/cmsis/])

    The C replacements of the ARM instructions. Signed integers are [Z]
    in their two's complement range; a conversion to a signed type reduces
    into that range, and [>>] on a signed value is the arithmetic shift,
    [Z.shiftr]. Loops take a fuel and give [None] when it runs out. *)

Definition u8 (x : Z) : Z := x mod 2 ^ 8.

(** Conversion to [int16_t], [int32_t] and [int64_t]. *)
Definition s16 (x : Z) : Z := (x + 2 ^ 15) mod 2 ^ 16 - 2 ^ 15.
Definition s32 (x : Z) : Z := (x + 2 ^ 31) mod 2 ^ 32 - 2 ^ 31.
Definition s64 (x : Z) : Z := (x + 2 ^ 63) mod 2 ^ 64 - 2 ^ 63.

Definition is_int32 (x : Z) : Prop := - 2 ^ 31 <= x < 2 ^ 31.
Definition is_int64 (x : Z) : Prop := - 2 ^ 63 <= x < 2 ^ 63.

(** The [while] loop of [__CLZ]. *)
Fixpoint clz_loop (fuel : nat) (data count mask : Z) : option Z :=
  match fuel with
  | O => None
  | S k =>
      if Z.land data mask =? 0
      then clz_loop k data (u32 (count + 1)) (Z.shiftr mask 1)
      else Some count
  end.

Definition __CLZ (fuel : nat) (data : Z) : option Z :=
  if data =? 0 then Some 32
  else
    match clz_loop fuel data 0 0x80000000 with
    | Some count => Some (u8 count)
    | None => None
    end.

Definition __SSAT (val sat : Z) : Z :=
  if (1 <=? sat) && (sat <=? 32) then
    let max := s32 (u32 (u32 (Z.shiftl 1 (u32 (sat - 1))) - 1)) in
    let min := s32 (-1 - max) in
    if val >? max then max
    else if val <? min then min
    else val
  else val.

Definition __USAT (val sat : Z) : Z :=
  if sat <=? 31 then
    let max := u32 (u32 (Z.shiftl 1 sat) - 1) in
    if val >? s32 max then max
    else if val <? 0 then 0
    else u32 val
  else u32 val.

Definition __ROR (op1 op2 : Z) : Z :=
  let op2 := op2 mod 32 in
  if op2 =? 0 then op1
  else Z.lor (Z.shiftr op1 op2) (u32 (Z.shiftl op1 (u32 (32 - op2)))).

(** The [for] loop of [__RBIT], entered after its initial [value >>= 1];
    it gives the final [result] and [s]. *)
Fixpoint rbit_loop (fuel : nat) (value result s : Z) : option (Z * Z) :=
  match fuel with
  | O => None
  | S k =>
      if value =? 0 then Some (result, s)
      else
        let result := u32 (Z.shiftl result 1) in
        let result := Z.lor result (Z.land value 1) in
        let s := u32 (s - 1) in
        rbit_loop k (Z.shiftr value 1) result s
  end.

Definition __RBIT (fuel : nat) (value : Z) : option Z :=
  let s := u32 (u32 (4 * 8) - 1) in
  match rbit_loop fuel (Z.shiftr value 1) value s with
  | Some (result, s) => Some (u32 (Z.shiftl result s))
  | None => None
  end.

Definition clip_q63_to_q31 (x : Z) : Z :=
  if negb (s32 (Z.shiftr x 32) =? Z.shiftr (s32 x) 31)
  then s32 (Z.lxor 0x7FFFFFFF (s32 (Z.shiftr x 63)))
  else s32 x.

Definition clip_q31_to_q15 (x : Z) : Z :=
  if negb (s32 (Z.shiftr x 16) =? Z.shiftr (s32 x) 15)
  then s16 (Z.lxor 0x7FFF (s16 (Z.shiftr x 31)))
  else s16 x.

Definition __QADD (x y : Z) : Z := s32 (clip_q63_to_q31 (s64 (x + y))).

Definition __QSUB (x y : Z) : Z := s32 (clip_q63_to_q31 (s64 (x - y))).

Definition __SSUB16 (op1 op2 : Z) : Z :=
  Z.lor (u32 (Z.land op1 0xFFFF0000 - Z.land op2 0xFFFF0000))
        (Z.land (u32 (op1 - op2)) 0xFFFF).

Definition abs_diff (op1 op2 : Z) : Z :=
  if op1 >? op2 then u32 (op1 - op2) else u32 (op2 - op1).

Definition __USAD8 (op1 op2 : Z) : Z :=
  let result := abs_diff (Z.land op1 0xFF) (Z.land op2 0xFF) in
  let result :=
    u32 (result + abs_diff (Z.land (Z.shiftr op1 8) 0xFF)
                           (Z.land (Z.shiftr op2 8) 0xFF)) in
  let result :=
    u32 (result + abs_diff (Z.land (Z.shiftr op1 16) 0xFF)
                           (Z.land (Z.shiftr op2 16) 0xFF)) in
  let result :=
    u32 (result + abs_diff (Z.land (Z.shiftr op1 24) 0xFF)
                           (Z.land (Z.shiftr op2 24) 0xFF)) in
  result.

Definition __USADA8 (op1 op2 op3 : Z) : Z :=
  let op3 := u32 (op3 + abs_diff (Z.land op1 0xFF) (Z.land op2 0xFF)) in
  let op3 :=
    u32 (op3 + abs_diff (Z.land (Z.shiftr op1 8) 0xFF)
                        (Z.land (Z.shiftr op2 8) 0xFF)) in
  let op3 :=
    u32 (op3 + abs_diff (Z.land (Z.shiftr op1 16) 0xFF)
                        (Z.land (Z.shiftr op2 16) 0xFF)) in
  let op3 :=
    u32 (op3 + abs_diff (Z.land (Z.shiftr op1 24) 0xFF)
                        (Z.land (Z.shiftr op2 24) 0xFF)) in
  op3.

Definition __SSAT_ASR (val sat shift : Z) : Z :=
  let val := Z.shiftr val (Z.land shift 0x1F) in
  if (1 <=? sat) && (sat <=? 32) then
    let max := s32 (u32 (u32 (Z.shiftl 1 (u32 (sat - 1))) - 1)) in
    let min := s32 (-1 - max) in
    if val >? max then max
    else if val <? min then min
    else val
  else val.

Definition __USAT_ASR (val sat shift : Z) : Z :=
  let val := Z.shiftr val (Z.land shift 0x1F) in
  if sat <=? 31 then
    let max := u32 (u32 (Z.shiftl 1 sat) - 1) in
    if val >? s32 max then max
    else if val <? 0 then 0
    else u32 val
  else u32 val.

Definition mult32x64 (x y : Z) : Z :=
  s64 (s64 (Z.shiftr (s64 (s64 (Z.land x 0x00000000FFFFFFFF) * y)) 32)
       + s64 (s64 (Z.shiftr x 32) * y)).

(** Saturation of an integer into an interval, to state results with. *)
Definition clamp (lo hi x : Z) : Z := Z.max lo (Z.min hi x).

(** ** Arithmetic of [uint32_t] and of the round-up *)

Lemma uint32_mod_value : UINT32_MOD = 4294967296.
Proof. reflexivity. Qed.

Ltac unfold_u32 :=
  unfold round_up, u32, is_uint32, sizeof_uint32, byte_of in *;
  rewrite ?uint32_mod_value in *.

Lemma u32_small (x : Z) : is_uint32 x -> u32 x = x.
Proof. unfold_u32. intros H. apply Z.mod_small. exact H. Qed.

(** Without overflow of [size + 3], the code computes the least multiple
    of 4 that is at least [size]. *)
Lemma round_up_exact (size : Z) :
  0 <= size -> size + 3 < UINT32_MOD ->
  round_up size = 4 * ((size + 3) / 4).
Proof.
  unfold_u32. intros H0 H1.
  assert (E : size = 4294967292 \/ size + 4 < 4294967296) by lia.
  destruct E as [E | E]; [subst size; reflexivity | ].
  rewrite (Z.mod_small (size + 4)) by lia.
  rewrite (Z.mod_small (size + 4 - 1)) by lia.
  replace (size + 4 - 1) with (size + 3) by lia.
  assert (0 <= (size + 3) / 4 < 1073741824) by (split; [apply Z.div_pos | apply Z.div_lt_upper_bound]; lia).
  rewrite (Z.mod_small ((size + 3) / 4)) by lia.
  rewrite Z.mod_small by lia. lia.
Qed.


Lemma round_up_range (size : Z) :
  0 <= round_up size <= UINT32_MOD - 4 /\ round_up size mod 4 = 0.
Proof.
  unfold_u32.
  set (k := ((size + 4) mod 4294967296 - 1) mod 4294967296 / 4).
  assert (Hk : 0 <= k < 1073741824).
  { unfold k. split; [apply Z.div_pos | apply Z.div_lt_upper_bound]; try lia;
    pose proof (Z.mod_pos_bound ((size + 4) mod 4294967296 - 1) 4294967296); lia. }
  rewrite (Z.mod_small k) by lia.
  rewrite (Z.mod_small (k * 4)) by lia.
  split; [lia | apply Z.mod_mul; lia].
Qed.

Lemma round_up_bounds (size : Z) :
  0 <= size -> size + 3 < UINT32_MOD ->
  size <= round_up size < size + 4.
Proof.
  intros H0 H1. rewrite round_up_exact by assumption.
  pose proof (Z.div_mod (size + 3) 4 ltac:(lia)).
  pose proof (Z.mod_pos_bound (size + 3) 4 ltac:(lia)). lia.
Qed.

(** ** Memory lemmas *)

Lemma load32_range (m : memory) (a : Z) : is_uint32 (load32 m a).
Proof.
  unfold load32. unfold_u32.
  pose proof (Z.mod_pos_bound (m a) 256 ltac:(lia)).
  pose proof (Z.mod_pos_bound (m (a + 1)) 256 ltac:(lia)).
  pose proof (Z.mod_pos_bound (m (a + 2)) 256 ltac:(lia)).
  pose proof (Z.mod_pos_bound (m (a + 3)) 256 ltac:(lia)).
  change (2 ^ 8) with 256. change (2 ^ 16) with 65536.
  change (2 ^ 24) with 16777216. lia.
Qed.

Lemma load32_store32 (m : memory) (a v : Z) :
  is_uint32 v -> load32 (store32 m a v) a = v.
Proof.
  intros Hv. unfold load32, store32.
  rewrite Z.eqb_refl.
  replace (a + 1 =? a) with false by (symmetry; apply Z.eqb_neq; lia).
  replace (a + 2 =? a) with false by (symmetry; apply Z.eqb_neq; lia).
  replace (a + 3 =? a) with false by (symmetry; apply Z.eqb_neq; lia).
  replace (a + 2 =? a + 1) with false by (symmetry; apply Z.eqb_neq; lia).
  replace (a + 3 =? a + 1) with false by (symmetry; apply Z.eqb_neq; lia).
  replace (a + 3 =? a + 2) with false by (symmetry; apply Z.eqb_neq; lia).
  rewrite !Z.eqb_refl.
  unfold_u32.
  change (2 ^ 8) with 256. change (2 ^ 16) with 65536.
  change (2 ^ 24) with 16777216.
  rewrite !Z.mod_mod by lia.
  Z.div_mod_to_equations. lia.
Qed.

Lemma store32_outside (m : memory) (a v x : Z) :
  x < a \/ a + 4 <= x -> store32 m a v x = m x.
Proof.
  intros H. unfold store32.
  replace (x =? a) with false by (symmetry; apply Z.eqb_neq; lia).
  replace (x =? a + 1) with false by (symmetry; apply Z.eqb_neq; lia).
  replace (x =? a + 2) with false by (symmetry; apply Z.eqb_neq; lia).
  replace (x =? a + 3) with false by (symmetry; apply Z.eqb_neq; lia).
  reflexivity.
Qed.

Lemma memset_inside (m : memory) (p c n x : Z) :
  p <= x < p + n -> memset m p c n x = byte_of c.
Proof.
  intros H. unfold memset.
  replace (p <=? x) with true by (symmetry; apply Z.leb_le; lia).
  replace (x <? p + n) with true by (symmetry; apply Z.ltb_lt; lia).
  reflexivity.
Qed.

Lemma memset_outside (m : memory) (p c n x : Z) :
  ~ (p <= x < p + n) -> memset m p c n x = m x.
Proof.
  intros H. unfold memset.
  destruct (Z.leb_spec p x); destruct (Z.ltb_spec x (p + n));
    simpl; try reflexivity. lia.
Qed.

(** A word read depends on its four bytes only. *)
Lemma load32_ext (m m' : memory) (a : Z) :
  (forall x, a <= x < a + 4 -> m' x = m x) -> load32 m' a = load32 m a.
Proof.
  intros H. unfold load32.
  rewrite (H a), (H (a + 1)), (H (a + 2)), (H (a + 3)) by lia.
  reflexivity.
Qed.

Lemma load32_zero (m : memory) (a : Z) :
  (forall x, a <= x < a + 4 -> m x = 0) -> load32 m a = 0.
Proof.
  intros H. unfold load32.
  rewrite (H a), (H (a + 1)), (H (a + 2)), (H (a + 3)) by lia.
  reflexivity.
Qed.


(** ** Case analysis of the allocator functions *)

Lemma layout_facts (L : layout) :
  0 <= ram_start L /\ ram_start L <= FB_PIXELS L /\
  _fs_cache L <= ram_end L /\ ram_end L <= UINT32_MOD - 4.
Proof.
  pose proof (layout_wf L) as H.
  rewrite !andb_true_iff, !Z.leb_le in H. tauto.
Qed.

Lemma layout_in_ram (L : layout) :
  FB_PIXELS L <= ram_end L /\ ram_start L <= _fs_cache L.
Proof.
  pose proof (layout_wf L) as H.
  rewrite !andb_true_iff, !Z.leb_le in H. tauto.
Qed.

Lemma in_ram_true (L : layout) (a n : Z) :
  in_ram L a n = true <-> ram_start L <= a /\ a + n <= ram_end L.
Proof. unfold in_ram. rewrite andb_true_iff, !Z.leb_le. tauto. Qed.

Lemma u32_range (x : Z) : 0 <= u32 x < 4294967296.
Proof. unfold u32. rewrite uint32_mod_value. apply Z.mod_pos_bound. lia. Qed.

(** Adding a multiple of 2^32 does not change the 32-bit value. *)
Lemma u32_plus_mod (x : Z) : u32 (x + 4294967296) = u32 x.
Proof.
  unfold u32. rewrite uint32_mod_value.
  replace (x + 4294967296) with (x + 1 * 4294967296) by lia.
  apply Z.mod_add. lia.
Qed.

Lemma u32_idemp_sub (x y : Z) : u32 (u32 x - y) = u32 (x - y).
Proof.
  unfold u32. rewrite uint32_mod_value.
  rewrite Zminus_mod_idemp_l. reflexivity.
Qed.

Lemma u32_idemp_add_r (x y : Z) : u32 (x + u32 y) = u32 (x + y).
Proof.
  unfold u32. rewrite uint32_mod_value.
  rewrite Zplus_mod_idemp_r. reflexivity.
Qed.

Lemma fb_alloc_unfold (L : layout) (size : Z) (s : state) :
  fb_alloc L size s =
  if size =? 0 then Ret NULL s
  else
    let result := u32 (pointer s - round_up size) in
    let new_pointer := u32 (result - 4) in
    if new_pointer <? FB_PIXELS L
    then Raise (MemoryError "FB Alloc Collision!!!") s
    else if in_ram L new_pointer 4
    then Ret result
           (mkState new_pointer
              (store32 (mem s) new_pointer (u32 (round_up size + 4))))
    else Fault s.
Proof.
  unfold fb_alloc. destruct (size =? 0); [reflexivity | ].
  unfold bind, get_pointer, write32, set_pointer, ret, fb_alloc_fail,
    sizeof_uint32.
  cbv zeta.
  destruct (u32 (u32 (pointer s - round_up size) - 4) <? FB_PIXELS L);
    [reflexivity | ].
  destruct (in_ram L (u32 (u32 (pointer s - round_up size) - 4)) 4);
    reflexivity.
Qed.

(** A returning [fb_alloc]: the header address passed the floor test and
    lies in the RAM, so the returned pointer is the header address plus 4
    without wrap-around. *)
Lemma fb_alloc_ret_inv (L : layout) (size : Z) (s s' : state) (p : Z) :
  fb_alloc L size s = Ret p s' ->
  (size = 0 /\ p = NULL /\ s' = s) \/
  (size <> 0 /\
   exists np,
     np = u32 (u32 (pointer s - round_up size) - 4) /\
     FB_PIXELS L <= np /\ ram_start L <= np /\ np + 4 <= ram_end L /\
     p = np + 4 /\ p = u32 (pointer s - round_up size) /\
     s' = mkState np (store32 (mem s) np (u32 (round_up size + 4)))).
Proof.
  rewrite fb_alloc_unfold. cbv zeta.
  destruct (Z.eqb_spec size 0) as [E | E].
  - intros H. inversion H. left. auto.
  - set (result := u32 (pointer s - round_up size)).
    set (np := u32 (result - 4)).
    destruct (Z.ltb_spec np (FB_PIXELS L)) as [Lt | Ge]; [discriminate | ].
    destruct (in_ram L np 4) eqn:Hram; [ | discriminate].
    intros H. inversion H. subst p s'. right. split; [exact E | ].
    apply in_ram_true in Hram. destruct Hram as [Hlo Hhi].
    pose proof (layout_facts L) as (H0 & H1 & H2 & H3).
    rewrite uint32_mod_value in H3.
    pose proof (u32_range (pointer s - round_up size)) as Hres.
    fold result in Hres.
    assert (Hnp : np = result - 4).
    { unfold np. destruct (Z_lt_le_dec result 4) as [Lr | Lr].
      - exfalso.
        assert (np = result - 4 + 4294967296).
        { unfold np. rewrite <- u32_plus_mod. apply u32_small.
          unfold is_uint32. rewrite uint32_mod_value. lia. }
        lia.
      - apply u32_small. unfold is_uint32. rewrite uint32_mod_value. lia. }
    exists np. repeat split; try assumption; try reflexivity; lia.
Qed.

Lemma memset_ram_unfold (L : layout) (p c n : Z) (s : state) :
  memset_ram L p c n s =
  if u32 n =? 0 then Ret tt s
  else if in_ram L p (u32 n)
  then Ret tt (mkState (pointer s) (memset (mem s) p c (u32 n)))
  else Fault (mkState (pointer s)
                (memset (mem s) p c
                   (if ram_start L <=? p then ram_end L - p else 0))).
Proof. reflexivity. Qed.

Lemma fb_alloc0_unfold (L : layout) (size : Z) (s : state) :
  fb_alloc0 L size s =
  match fb_alloc L size s with
  | Ret p s1 =>
      match memset_ram L p 0 size s1 with
      | Ret _ s2 => Ret p s2
      | Raise e s2 => Raise e s2
      | Fault s2 => Fault s2
      end
  | Raise e s1 => Raise e s1
  | Fault s1 => Fault s1
  end.
Proof.
  unfold fb_alloc0, bind, ret.
  destruct (fb_alloc L size s) as [p s1 | e s1 | s1]; reflexivity.
Qed.

(** A returning [fb_alloc0]: [fb_alloc] returned, and the bytes to clear
    are none or lie in the RAM. *)
Lemma fb_alloc0_ret_inv (L : layout) (size : Z) (s s2 : state) (p : Z) :
  fb_alloc0 L size s = Ret p s2 ->
  exists s1,
    fb_alloc L size s = Ret p s1 /\
    ((u32 size = 0 /\ s2 = s1) \/
     (u32 size <> 0 /\ ram_start L <= p /\ p + u32 size <= ram_end L /\
      s2 = mkState (pointer s1) (memset (mem s1) p 0 (u32 size)))).
Proof.
  rewrite fb_alloc0_unfold.
  destruct (fb_alloc L size s) as [q s1 | e s1 | s1]; try discriminate.
  rewrite memset_ram_unfold.
  destruct (Z.eqb_spec (u32 size) 0) as [E | E].
  - intros H. inversion H. subst q s2. exists s1. auto.
  - destruct (in_ram L q (u32 size)) eqn:Hram; [ | discriminate].
    intros H. inversion H. subst q. exists s1. split; [reflexivity | ].
    right. apply in_ram_true in Hram. tauto.
Qed.

Lemma fb_free_unfold (L : layout) (s : state) :
  fb_free L s =
  if pointer s <? _fs_cache L
  then
    if in_ram L (pointer s) 4
    then Ret tt (mkState (u32 (pointer s + load32 (mem s) (pointer s)))
                   (mem s))
    else Fault s
  else Ret tt s.
Proof.
  unfold fb_free, bind, get_pointer, read32, set_pointer, ret.
  destruct (pointer s <? _fs_cache L); [ | reflexivity].
  destruct (in_ram L (pointer s) 4); reflexivity.
Qed.

Lemma free_n_succ (L : layout) (n : nat) (s : state) :
  free_n L (S n) s =
  match fb_free L s with
  | Ret _ s' => free_n L n s'
  | Raise e s' => Raise e s'
  | Fault s' => Fault s'
  end.
Proof. reflexivity. Qed.

Lemma run_calls_cons (L : layout) (c : call) (rest : list call) (s : state) :
  run_calls L (c :: rest) s =
  match run_call L c s with
  | Ret _ sa => run_calls L rest sa
  | Raise e sa => Raise e sa
  | Fault sa => Fault sa
  end.
Proof. reflexivity. Qed.

(** Running a concatenation is running the parts in turn. *)
Lemma run_calls_app (L : layout) (first second : list call) (s s2 : state) :
  run_calls L (first ++ second) s = Ret tt s2 <->
  exists s1, run_calls L first s = Ret tt s1 /\
             run_calls L second s1 = Ret tt s2.
Proof.
  revert s. induction first as [ | c rest IH]; intros s.
  - simpl. unfold ret. split.
    + intros H. exists s. auto.
    + intros (s1 & H1 & H2). inversion H1. subst. exact H2.
  - rewrite <- app_comm_cons, !run_calls_cons.
    destruct (run_call L c s) as [[] sa | e sa | sa].
    + apply IH.
    + split; [discriminate | intros (s1 & H1 & _); discriminate].
    + split; [discriminate | intros (s1 & H1 & _); discriminate].
Qed.

(** ** Allocations that do not wrap around address 0 *)

Lemma block_bytes_round_up (size : Z) :
  0 < size -> size + 3 < UINT32_MOD -> round_up size + 4 = block_bytes size.
Proof.
  intros Hpos Hsmall. unfold block_bytes.
  rewrite round_up_exact by lia. reflexivity.
Qed.

Lemma block_bytes_pos (size : Z) : 0 < size -> 8 <= block_bytes size.
Proof.
  intros H. unfold block_bytes.
  assert (1 <= (size + 3) / 4) by (apply Z.div_le_lower_bound; lia). lia.
Qed.

Lemma block_bytes_bounds (size : Z) :
  size + 4 <= block_bytes size < size + 8.
Proof.
  unfold block_bytes.
  pose proof (Z.div_mod (size + 3) 4 ltac:(lia)).
  pose proof (Z.mod_pos_bound (size + 3) 4 ltac:(lia)). lia.
Qed.

Lemma safe_size_small (L : layout) (size : Z) :
  safe_size L size -> 0 <= size /\ size + 3 < UINT32_MOD.
Proof.
  intros [H0 Hb]. pose proof (block_bytes_bounds size).
  pose proof (layout_facts L) as (_ & _ & _ & Hend).
  pose proof (layout_in_ram L) as (Hfl & _).
  split; [exact H0 | lia].
Qed.

(** With the block no larger than the cursor's own address, the two
    subtractions of [fb_alloc] do not wrap. *)
Lemma fb_alloc_no_wrap (L : layout) (size : Z) (s : state) :
  size <> 0 -> pointer s < UINT32_MOD -> round_up size + 4 <= pointer s ->
  fb_alloc L size s =
  if pointer s - round_up size - 4 <? FB_PIXELS L
  then Raise (MemoryError "FB Alloc Collision!!!") s
  else if in_ram L (pointer s - round_up size - 4) 4
  then Ret (pointer s - round_up size)
         (mkState (pointer s - round_up size - 4)
            (store32 (mem s) (pointer s - round_up size - 4)
               (u32 (round_up size + 4))))
  else Fault s.
Proof.
  intros Hz Hp Hfit. rewrite fb_alloc_unfold. cbv zeta.
  replace (size =? 0) with false by (symmetry; apply Z.eqb_neq; exact Hz).
  pose proof (round_up_range size) as [Hr _].
  rewrite uint32_mod_value in *.
  rewrite (u32_small (pointer s - round_up size))
    by (unfold is_uint32; rewrite uint32_mod_value; lia).
  rewrite (u32_small (pointer s - round_up size - 4))
    by (unfold is_uint32; rewrite uint32_mod_value; lia).
  reflexivity.
Qed.

(** A returning [fb_alloc] of a non-zero size that does not wrap moves the
    cursor down, leaves a header that leads back to the old cursor, and
    writes only below the old cursor. *)
Lemma fb_alloc_pushes (L : layout) (size : Z) (s s' : state) (p : Z) :
  pointer s <= _fs_cache L -> size <> 0 -> round_up size + 4 <= pointer s ->
  fb_alloc L size s = Ret p s' ->
  pointer s' = pointer s - round_up size - 4 /\ p = pointer s' + 4 /\
  FB_PIXELS L <= pointer s' /\ pointer s' + 4 <= pointer s /\
  load32 (mem s') (pointer s') = round_up size + 4 /\
  (forall x, pointer s' + 4 <= x -> mem s' x = mem s x).
Proof.
  intros Hb Hz Hfit H.
  pose proof (layout_facts L) as (H0 & H1 & H2 & H3).
  pose proof (round_up_range size) as [Hr _].
  rewrite uint32_mod_value in *.
  rewrite fb_alloc_no_wrap in H by (try assumption; rewrite uint32_mod_value; lia).
  destruct (Z.ltb_spec (pointer s - round_up size - 4) (FB_PIXELS L));
    [discriminate | ].
  destruct (in_ram L (pointer s - round_up size - 4) 4); [ | discriminate].
  inversion H. cbn [pointer mem].
  rewrite (u32_small (round_up size + 4))
    by (unfold is_uint32; rewrite uint32_mod_value; lia).
  repeat split; try lia.
  - apply load32_store32. unfold is_uint32. rewrite uint32_mod_value. lia.
  - intros x Hx. apply store32_outside. lia.
Qed.

(** ** The stack of live blocks *)

Lemma chain_le_base (L : layout) (m : memory) (p : Z) :
  chain L m p -> p <= _fs_cache L.
Proof.
  induction 1 as [ | p q Hf Hq Ha Hh Hc IH]; unfold sizeof_uint32 in *; lia.
Qed.

Lemma chain_ge_floor (L : layout) (m : memory) (p : Z) :
  FB_PIXELS L <= _fs_cache L -> chain L m p -> FB_PIXELS L <= p.
Proof. intros Hfb Hc. destruct Hc; lia. Qed.

Lemma chain_offset_aligned (L : layout) (m : memory) (p : Z) :
  chain L m p -> (_fs_cache L - p) mod 4 = 0.
Proof.
  induction 1 as [ | p q Hf Hq Ha Hh Hc IH].
  - rewrite Z.sub_diag. reflexivity.
  - replace (_fs_cache L - p) with ((_fs_cache L - q) + (q - p)) by lia.
    rewrite Z.add_mod by lia. rewrite IH, Ha. reflexivity.
Qed.

(** Writes below the cursor keep the chain. *)
Lemma chain_frame (L : layout) (m m' : memory) (p : Z) :
  chain L m p ->
  (forall x, p <= x < _fs_cache L -> m' x = m x) ->
  chain L m' p.
Proof.
  induction 1 as [ | p q Hf Hq Ha Hh Hc IH]; intros Hm.
  - constructor.
  - pose proof (chain_le_base _ _ _ Hc) as Hb.
    unfold sizeof_uint32 in *.
    apply chain_blk with (q := q); try assumption.
    + rewrite (load32_ext m m') by (intros x Hx; apply Hm; lia).
      exact Hh.
    + apply IH. intros x Hx. apply Hm. lia.
Qed.

Section SafeArena.

Variable L : layout.

(** The frame buffer ends at or below the start of the stack. *)
Hypothesis floor_le_base : FB_PIXELS L <= _fs_cache L.

Lemma safe_size_no_wrap (size : Z) (s : state) :
  size <> 0 -> safe_size L size -> FB_PIXELS L <= pointer s ->
  round_up size + 4 <= pointer s /\ 0 < size /\ size + 3 < UINT32_MOD /\
  size <= round_up size.
Proof.
  intros Hz Hsafe Hp.
  destruct (safe_size_small L size Hsafe) as [H0 Hs].
  destruct Hsafe as [_ Hb].
  rewrite block_bytes_round_up by lia.
  pose proof (round_up_bounds size H0 Hs). lia.
Qed.

Lemma chain_fb_alloc (size : Z) (s s' : state) (p : Z) :
  safe_size L size ->
  chain L (mem s) (pointer s) ->
  fb_alloc L size s = Ret p s' ->
  chain L (mem s') (pointer s').
Proof.
  intros Hsafe Hc H.
  destruct (Z.eq_dec size 0) as [E | E].
  - subst size. rewrite fb_alloc_unfold in H. simpl in H.
    inversion H. subst. exact Hc.
  - pose proof (chain_le_base _ _ _ Hc) as Hb.
    pose proof (chain_ge_floor _ _ _ floor_le_base Hc) as Hf.
    destruct (safe_size_no_wrap size s E Hsafe Hf) as (Hfit & _).
    destruct (fb_alloc_pushes L size s s' p Hb E Hfit H)
      as (Hp & _ & Hfl & Hlt & Hhd & Hfr).
    pose proof (round_up_range size) as [Hr Ha].
    apply chain_blk with (q := pointer s); unfold sizeof_uint32.
    + exact Hfl.
    + exact Hlt.
    + replace (pointer s - pointer s') with (round_up size + 1 * 4) by lia.
      rewrite Z.mod_add by lia. exact Ha.
    + rewrite Hhd. lia.
    + apply chain_frame with (m := mem s); [exact Hc | ].
      intros x Hx. apply Hfr. lia.
Qed.

Lemma chain_fb_alloc0 (size : Z) (s s' : state) (p : Z) :
  safe_size L size ->
  chain L (mem s) (pointer s) ->
  fb_alloc0 L size s = Ret p s' ->
  chain L (mem s') (pointer s').
Proof.
  intros Hsafe Hc H.
  destruct (fb_alloc0_ret_inv _ _ _ _ _ H) as (s1 & H1 & Hset).
  pose proof (chain_fb_alloc size s s1 p Hsafe Hc H1) as Hc1.
  destruct Hset as [(_ & ->) | (Hn & Hlo & Hhi & ->)]; [exact Hc1 | ].
  cbn [pointer mem].
  destruct (Z.eq_dec size 0) as [E | E].
  - subst size. exfalso. apply Hn. reflexivity.
  - pose proof (chain_le_base _ _ _ Hc) as Hb.
    pose proof (chain_ge_floor _ _ _ floor_le_base Hc) as Hf.
    destruct (safe_size_no_wrap size s E Hsafe Hf) as (Hfit & Hpos & Hs & Hle).
    destruct (fb_alloc_pushes L size s s1 p Hb E Hfit H1)
      as (Hp & Hpp & Hfl & Hlt & Hhd & Hfr).
    pose proof (round_up_range size) as [Hr Ha].
    rewrite (u32_small size) by (unfold is_uint32; lia).
    apply chain_blk with (q := pointer s); unfold sizeof_uint32.
    + exact Hfl.
    + exact Hlt.
    + replace (pointer s - pointer s1) with (round_up size + 1 * 4) by lia.
      rewrite Z.mod_add by lia. exact Ha.
    + rewrite (load32_ext (mem s1))
        by (intros x Hx; apply memset_outside; lia).
      rewrite Hhd. lia.
    + apply chain_frame with (m := mem s); [exact Hc | ].
      intros x Hx. rewrite memset_outside by lia. apply Hfr. lia.
Qed.

(** In a chained state [fb_free] returns, at the next block or, from the
    base, where it is. *)
Lemma chain_fb_free (s : state) :
  chain L (mem s) (pointer s) ->
  exists s',
    fb_free L s = Ret tt s' /\ mem s' = mem s /\
    pointer s <= pointer s' /\ chain L (mem s') (pointer s').
Proof.
  intros Hc. rewrite fb_free_unfold.
  pose proof (layout_facts L) as (H0 & H1 & H2 & H3).
  rewrite uint32_mod_value in H3.
  destruct (Z.ltb_spec (pointer s) (_fs_cache L)) as [Lt | Ge].
  - inversion Hc as [E | p q Hf Hq Ha Hh Hq' E]; [lia | ].
    pose proof (chain_le_base _ _ _ Hq') as Hqb.
    unfold sizeof_uint32 in *.
    replace (in_ram L (pointer s) 4) with true
      by (symmetry; apply in_ram_true; lia).
    rewrite Hh. replace (pointer s + (q - pointer s)) with q by lia.
    rewrite (u32_small q) by (unfold is_uint32; rewrite uint32_mod_value; lia).
    eexists. split; [reflexivity | ]. cbn [pointer mem].
    split; [reflexivity | ]. split; [lia | exact Hq'].
  - exists s. split; [reflexivity | ]. split; [reflexivity | ].
    split; [lia | exact Hc].
Qed.

Lemma safely_reachable_chain (s : state) :
  safely_reachable L s -> chain L (mem s) (pointer s).
Proof.
  induction 1 as [m | s s' c Hr IH Ht Hrun].
  - constructor.
  - destruct c as [ | size | size | ]; simpl in Hrun, Ht.
    + inversion Hrun. constructor.
    + unfold bind, ret in Hrun.
      destruct (fb_alloc L size s) as [p s1 | e s1 | s1] eqn:E;
        try discriminate.
      inversion Hrun. subst s1. eapply chain_fb_alloc; eauto.
    + unfold bind at 1 in Hrun. unfold ret in Hrun.
      destruct (fb_alloc0 L size s) as [p s1 | e s1 | s1] eqn:E;
        try discriminate.
      inversion Hrun. subst s1. eapply chain_fb_alloc0; eauto.
    + destruct (chain_fb_free s IH) as (s2 & Hf & _ & _ & Hc2).
      rewrite Hf in Hrun. inversion Hrun. subst. exact Hc2.
Qed.

End SafeArena.

(** ** Properties of the scratch arena *)

Lemma run_calls_reachable (L : layout) (cs : list call) :
  Forall call_typed cs ->
  forall s s' : state,
    reachable L s -> run_calls L cs s = Ret tt s' -> reachable L s'.
Proof.
  induction 1 as [ | c rest Hc Hrest IH]; intros s s' Hr Hrun.
  - simpl in Hrun. unfold ret in Hrun. inversion Hrun. subst. exact Hr.
  - rewrite run_calls_cons in Hrun.
    destruct (run_call L c s) as [[] sa | e sa | sa] eqn:E; try discriminate.
    apply (IH sa s'); [ | exact Hrun].
    apply reach_call with (s := s) (c := c); assumption.
Qed.

Ltac prove_uint32 :=
  unfold is_uint32; rewrite uint32_mod_value; lia.

(** C1, in the arena from 1000 to 2000 of a RAM from 0 to 4096: from the
    initial state [fb_alloc(4294967288)] does not raise. The subtraction of
    the size from the cursor wraps around address 0 to 2008, the header
    address 2004 passes the floor test, and the call returns with the
    cursor at 2004, above the base 2000, in a reachable state. *)
Theorem bounds_broken_by_wrapped_alloc :
  is_uint32 4294967288 /\
  fb_alloc example_layout 4294967288 boot_state
  = Ret 2008 (mkState 2004 (store32 zero_mem 2004 4294967292)) /\
  reachable example_layout
    (mkState 2004 (store32 zero_mem 2004 4294967292)) /\
  _fs_cache example_layout = 2000 /\ FB_PIXELS example_layout = 1000.
Proof.
  split; [prove_uint32 | ]. split; [reflexivity | ].
  split; [ | split; reflexivity].
  apply reach_call with (s := boot_state) (c := CallAlloc 4294967288).
  - apply (reach_boot example_layout zero_mem).
  - simpl. prove_uint32.
  - reflexivity.
Qed.

(** C2, at the size 4294967295 in the region from 1000 to 2000: the size
    rounded up to a multiple of 4 is 4294967296 and the candidate cursor
    lies far below the floor, yet the 32-bit round-up yields 0, so
    [fb_alloc] returns the old cursor 2000 as the payload, moves the cursor
    to 1996 and stores 4 in the header instead of raising. *)
Theorem fb_alloc_wrapped_size_no_collision (m : memory) :
  is_uint32 4294967295 /\
  2000 - 4 * ((4294967295 + 3) / 4) - 4 < 1000 /\
  round_up 4294967295 = 0 /\
  fb_alloc example_layout 4294967295 (mkState 2000 m)
  = Ret 2000 (mkState 1996 (store32 m 1996 4)).
Proof.
  split; [prove_uint32 | ].
  split; [reflexivity | ].
  split; reflexivity.
Qed.

(** The concrete example continued: the [fb_free] that follows
    [fb_alloc(10)] puts the cursor back at 2000. *)
Example fb_free_after_example_alloc :
  exists s, fb_free example_layout example_state = Ret tt s /\ pointer s = 2000.
Proof.
  exists (final_state (fb_free example_layout example_state)).
  split; reflexivity.
Qed.

(** C3: for a size above 0 whose candidate cursor (cursor minus the size
    rounded up to a multiple of 4, minus the 4-byte header) is not below the
    floor, [fb_alloc] returns the payload pointer cursor minus rounded size,
    moves the cursor to the candidate and stores rounded size plus 4 in the
    header word at the new cursor, just before the payload. In the region
    from 1000 to 2000, [fb_alloc(10)] rounds to 12, returns 1988, moves the
    cursor from 2000 to 1984 and stores 16 at 1984. *)
Theorem fb_alloc_success :
  (forall (L : layout) (size : Z) (s : state),
      _fs_cache L - FB_PIXELS L < UINT32_MOD -> pointer s <= _fs_cache L ->
      0 < size ->
      let rounded := 4 * ((size + 3) / 4) in
      FB_PIXELS L <= pointer s - rounded - 4 ->
      (size <= rounded < size + 4 /\ rounded mod 4 = 0) /\
      round_up size = rounded /\
      exists s',
        fb_alloc L size s = Ret (pointer s - rounded) s' /\
        pointer s' = pointer s - rounded - 4 /\
        load32 (mem s') (pointer s') = rounded + 4 /\
        pointer s' + 4 = pointer s - rounded /\
        (forall x, x < pointer s' \/ pointer s' + 4 <= x ->
                   mem s' x = mem s x)) /\
  (forall m : memory,
      round_up 10 = 12 /\
      exists s',
        fb_alloc example_layout 10 (mkState 2000 m) = Ret 1988 s' /\
        pointer s' = 1984 /\ load32 (mem s') 1984 = 16).
Proof.
  split.
  - intros L size s Hsmall Hb Hpos rounded Hfit.
    pose proof (layout_facts L) as (H0 & H1 & H2 & H3).
    rewrite uint32_mod_value in *.
    assert (Hrange : rounded mod 4 = 0).
    { unfold rounded. rewrite Z.mul_comm. apply Z.mod_mul. lia. }
    assert (Hnear : size <= rounded < size + 4).
    { unfold rounded.
      pose proof (Z.div_mod (size + 3) 4 ltac:(lia)).
      pose proof (Z.mod_pos_bound (size + 3) 4 ltac:(lia)). lia. }
    assert (Hru : round_up size = rounded).
    { apply round_up_exact; rewrite ?uint32_mod_value; lia. }
    split; [split; assumption | ]. split; [exact Hru | ].
    eexists.
    rewrite fb_alloc_no_wrap by (rewrite ?uint32_mod_value, ?Hru; lia).
    rewrite Hru.
    replace (pointer s - rounded - 4 <? FB_PIXELS L) with false
      by (symmetry; apply Z.ltb_ge; lia).
    replace (in_ram L (pointer s - rounded - 4) 4) with true
      by (symmetry; apply in_ram_true; lia).
    split; [reflexivity | ]. cbn [pointer mem].
    repeat split.
    + rewrite u32_small by (unfold is_uint32; rewrite uint32_mod_value; lia).
      apply load32_store32. unfold is_uint32. rewrite uint32_mod_value. lia.
    + lia.
    + intros x Hx. apply store32_outside. exact Hx.
  - intros m. split; [reflexivity | ].
    exists (mkState 1984 (store32 m 1984 16)).
    split; [reflexivity | ]. cbn [pointer mem].
    split; [reflexivity | ].
    apply (load32_store32 m 1984 16). prove_uint32.
Qed.

Lemma fb_alloc_success_witness :
  exists s',
    fb_alloc example_layout 10 boot_state = Ret (pointer boot_state - 12) s' /\
    pointer s' = 1984 /\ load32 (mem s') (pointer s') = 16.
Proof.
  destruct (proj1 fb_alloc_success example_layout 10 boot_state)
    as (_ & _ & s' & Hret & Hp & Hh & _).
  - reflexivity.
  - simpl. lia.
  - lia.
  - vm_compute. discriminate.
  - exists s'. repeat split; assumption.
Defined.

(** C7: [fb_alloc] of size 0 returns the null pointer, raises nothing and
    leaves the whole state (cursor and memory) as it was. *)
Theorem fb_alloc_zero_size (L : layout) (s : state) :
  fb_alloc L 0 s = Ret NULL s.
Proof. reflexivity. Qed.

(** C9: with the cursor at the base, [fb_free] returns without raising and
    leaves the state as it was, however many times it is called. *)
Theorem fb_free_empty_noop (L : layout) (s : state) (n : nat) :
  pointer s = _fs_cache L ->
  fb_free L s = Ret tt s /\ free_n L n s = Ret tt s.
Proof.
  intros Hp.
  assert (Hone : fb_free L s = Ret tt s).
  { rewrite fb_free_unfold.
    replace (pointer s <? _fs_cache L) with false
      by (symmetry; apply Z.ltb_ge; lia).
    reflexivity. }
  split; [exact Hone | ].
  induction n as [ | n IH]; [reflexivity | ].
  rewrite free_n_succ, Hone. exact IH.
Qed.

Lemma fb_free_empty_noop_witness :
  fb_free example_layout boot_state = Ret tt boot_state /\
  free_n example_layout 5 boot_state = Ret tt boot_state.
Proof.
  apply (fb_free_empty_noop example_layout boot_state 5). reflexivity.
Defined.

(** C4, in the same arena: the single allocation [fb_alloc(4294967288)]
    returns, with the cursor wrapped to 2004; the one [fb_free] that follows
    finds the cursor not below the base and does nothing, so the cursor
    stays at 2004 and is not back at 2000. *)
Theorem stack_discipline_broken_by_wrapped_alloc :
  exists s1,
    alloc_seq example_layout [4294967288] boot_state = Ret tt s1 /\
    free_n example_layout (length [4294967288]) s1 = Ret tt s1 /\
    pointer s1 = 2004 /\ pointer boot_state = 2000.
Proof.
  exists (final_state (fb_alloc example_layout 4294967288 boot_state)).
  split; [reflexivity | ]. split; [reflexivity | ].
  split; reflexivity.
Qed.

(** C5: whatever call is made in whatever state, and whether it returns,
    raises or faults, every memory cell below the floor holds afterwards
    what it held before. *)
Theorem below_floor_unchanged (L : layout) (c : call) (s : state) (x : Z) :
  x < FB_PIXELS L ->
  mem (final_state (run_call L c s)) x = mem s x.
Proof.
  intros Hx.
  assert (Halloc : forall size,
             mem (final_state (fb_alloc L size s)) x = mem s x
             /\ forall p s1, fb_alloc L size s = Ret p s1 ->
                             size <> 0 -> FB_PIXELS L < p).
  { intros size. split.
    - rewrite fb_alloc_unfold. cbv zeta.
      destruct (size =? 0); [reflexivity | ].
      destruct (Z.ltb_spec (u32 (u32 (pointer s - round_up size) - 4))
                  (FB_PIXELS L)) as [Lt | Ge]; [reflexivity | ].
      destruct (in_ram L (u32 (u32 (pointer s - round_up size) - 4)) 4);
        [ | reflexivity].
      cbn [final_state mem]. apply store32_outside. lia.
    - intros p s1 H Hz.
      destruct (fb_alloc_ret_inv _ _ _ _ _ H)
        as [(E & _) | (_ & np & _ & Hfl & _ & _ & Hp & _)];
        [contradiction | lia]. }
  destruct c as [ | size | size | ]; cbn [run_call].
  - reflexivity.
  - unfold bind, ret. destruct (Halloc size) as [Hm _].
    destruct (fb_alloc L size s); exact Hm.
  - unfold bind at 1. unfold ret. rewrite fb_alloc0_unfold.
    destruct (Halloc size) as [Hm Hp].
    destruct (fb_alloc L size s) as [p s1 | e s1 | s1]; try exact Hm.
    cbn [final_state] in Hm.
    rewrite memset_ram_unfold.
    destruct (Z.eqb_spec (u32 size) 0) as [E | E]; [exact Hm | ].
    assert (Hz : size <> 0) by (intros ->; apply E; reflexivity).
    specialize (Hp p s1 eq_refl Hz).
    destruct (in_ram L p (u32 size)); cbn [final_state mem];
      rewrite memset_outside by lia; exact Hm.
  - rewrite fb_free_unfold.
    destruct (pointer s <? _fs_cache L); [ | reflexivity].
    destruct (in_ram L (pointer s) 4); reflexivity.
Qed.

Lemma below_floor_unchanged_witness :
  mem (final_state (run_call example_layout (CallAlloc0 996) boot_state)) 999
  = mem boot_state 999.
Proof.
  apply (below_floor_unchanged example_layout (CallAlloc0 996) boot_state 999).
  simpl. lia.
Defined.

(** C8, in the same arena at the size 4294967295: [fb_alloc] returns the
    pointer 2000 (the round-up wraps to 0), but [fb_alloc0] does not return:
    its [memset] of 4294967295 bytes from 2000 runs off the end of the RAM
    and the call ends with a fault, after the cursor has moved to 1996. *)
Theorem fb_alloc0_faults_where_fb_alloc_returns :
  is_uint32 4294967295 /\
  (exists s1, fb_alloc example_layout 4294967295 boot_state = Ret 2000 s1) /\
  (exists s2,
      fb_alloc0 example_layout 4294967295 boot_state = Fault s2 /\
      pointer s2 = 1996).
Proof.
  split; [prove_uint32 | ]. split.
  - exists (final_state (fb_alloc example_layout 4294967295 boot_state)).
    reflexivity.
  - exists (final_state (fb_alloc0 example_layout 4294967295 boot_state)).
    split; reflexivity.
Qed.

(** The release loop stays where it is once the cursor is at or above the
    base and differs from the mark. *)
Lemma pop_until_stuck (L : layout) (fuel : nat) (m : Z) (s : state) :
  _fs_cache L <= pointer s -> pointer s <> m ->
  pop_until L fuel m s = OutOfFuel.
Proof.
  intros Hge Hne. induction fuel as [ | fuel IH]; [reflexivity | ].
  cbn [pop_until].
  replace (pointer s =? m) with false by (symmetry; apply Z.eqb_neq; exact Hne).
  rewrite fb_free_unfold.
  replace (pointer s <? _fs_cache L) with false
    by (symmetry; apply Z.ltb_ge; exact Hge).
  exact IH.
Qed.

Lemma pop_until_step (L : layout) (k : nat) (m : Z) (s s' : state) :
  pointer s <> m -> fb_free L s = Ret tt s' ->
  pop_until L (S k) m s = pop_until L k m s'.
Proof.
  intros Hne Hfree. cbn [pop_until].
  replace (pointer s =? m) with false by (symmetry; apply Z.eqb_neq; exact Hne).
  rewrite Hfree. reflexivity.
Qed.

(** C6, in the same arena: after a mark at 2000 the allocations of
    4294967288 and of 4 bytes both return (cursor 2004, then 1996). The
    release pops to 2004, where [fb_free] no longer moves the cursor, so
    the loop never finds the cursor equal to the mark: it runs out of any
    amount of fuel. *)
Theorem release_never_reaches_mark :
  exists p1 a1 p2 a2,
    arena_alloc example_layout 4294967288
      (fb_alloc_mark (mkArena boot_state [])) = Some (p1, a1) /\
    arena_alloc example_layout 4 a1 = Some (p2, a2) /\
    pointer (core a1) = 2004 /\ pointer (core a2) = 1996 /\
    marks a2 = [2000] /\
    forall fuel, fb_alloc_free_till_mark example_layout fuel a2 = OutOfFuel.
Proof.
  exists 2008.
  exists (mkArena
            (final_state (fb_alloc example_layout 4294967288 boot_state))
            [2000]).
  exists 2000.
  exists (mkArena
            (final_state
               (alloc_seq example_layout [4294967288; 4] boot_state))
            [2000]).
  split; [reflexivity | ]. split; [reflexivity | ].
  split; [reflexivity | ]. split; [reflexivity | ].
  split; [reflexivity | ].
  intros fuel. unfold fb_alloc_free_till_mark. cbn [marks core].
  set (s2 := final_state
               (alloc_seq example_layout [4294967288; 4] boot_state)).
  destruct fuel as [ | fuel]; [reflexivity | ].
  rewrite (pop_until_step example_layout fuel 2000 s2
             (final_state (fb_free example_layout s2))).
  - rewrite pop_until_stuck; [reflexivity | | ].
    + vm_compute. discriminate.
    + vm_compute. discriminate.
  - vm_compute. discriminate.
  - reflexivity.
Qed.

(** C10, in the same arena, whose base 2000 is a multiple of 4, over a
    memory whose word at 1952 holds 1: [fb_alloc(300)] puts the cursor at
    1696; [fb_alloc(4294967288)] wraps and moves it up to 1700;
    [fb_alloc0(13)] returns and its zero fill clears the low byte of the
    live header at 1696 (304 becomes 256); four [fb_free] then lead to
    1700, 1696, 1952 and 1953. Every call returns and the final cursor is
    not a multiple of 4. *)
Theorem alignment_broken_by_wrapped_alloc :
  exists s,
    run_calls example_layout
      [CallAlloc 300; CallAlloc 4294967288; CallAlloc0 13;
       CallFree; CallFree; CallFree; CallFree]
      (mkState 2000 one_at_1952) = Ret tt s /\
    reachable example_layout s /\
    _fs_cache example_layout mod 4 = 0 /\
    pointer s = 1953 /\ pointer s mod 4 = 1.
Proof.
  exists (final_state
            (run_calls example_layout
               [CallAlloc 300; CallAlloc 4294967288; CallAlloc0 13;
                CallFree; CallFree; CallFree; CallFree]
               (mkState 2000 one_at_1952))).
  split; [reflexivity | ]. split.
  - apply (run_calls_reachable example_layout
             [CallAlloc 300; CallAlloc 4294967288; CallAlloc0 13;
              CallFree; CallFree; CallFree; CallFree])
      with (s := mkState 2000 one_at_1952).
    + repeat (apply Forall_cons;
                [simpl; first [exact I | prove_uint32] | ]).
      apply Forall_nil.
    + apply (reach_boot example_layout one_at_1952).
    + reflexivity.
  - split; [reflexivity | ]. split; reflexivity.
Qed.

(** ** Further properties of [fb_alloc], [fb_alloc0], [fb_free] and
    [fb_alloc_init0] *)

(** X1: the three outcomes of [fb_alloc] for a size from 1 to 4294967292
    and a cursor between the floor and the base. When the padded payload
    and its header fit above the floor the call returns the pointer 4 bytes
    above the new cursor. When they do not fit but are no larger than the
    cursor's own address it raises the collision error with the state
    untouched. When they are larger than the cursor's address the
    subtraction wraps around address 0 to a header address that passes the
    floor test: the call never raises, it returns if that address lies in
    the RAM and faults otherwise. *)
Theorem fb_alloc_capacity_test (L : layout) (size : Z) (s : state) :
  0 < size -> size + 3 < UINT32_MOD ->
  FB_PIXELS L <= pointer s <= _fs_cache L ->
  (block_bytes size <= pointer s - FB_PIXELS L ->
   exists s',
     fb_alloc L size s = Ret (pointer s - block_bytes size + 4) s' /\
     pointer s' = pointer s - block_bytes size) /\
  (pointer s - FB_PIXELS L < block_bytes size <= pointer s ->
   fb_alloc L size s = Raise (MemoryError "FB Alloc Collision!!!") s) /\
  (pointer s < block_bytes size ->
   let np := pointer s - block_bytes size + UINT32_MOD in
   FB_PIXELS L <= np /\
   fb_alloc L size s =
   if in_ram L np 4
   then Ret (np + 4)
          (mkState np (store32 (mem s) np (u32 (block_bytes size))))
   else Fault s).
Proof.
  intros Hpos Hsmall Hp.
  pose proof (layout_facts L) as (H0 & H1 & H2 & H3).
  pose proof (block_bytes_round_up size Hpos Hsmall) as Hbb.
  pose proof (round_up_range size) as [Hr _].
  rewrite uint32_mod_value in *.
  split; [ | split].
  - intros Hfit.
    rewrite fb_alloc_no_wrap by (rewrite ?uint32_mod_value; lia).
    replace (pointer s - round_up size - 4 <? FB_PIXELS L) with false
      by (symmetry; apply Z.ltb_ge; lia).
    replace (in_ram L (pointer s - round_up size - 4) 4) with true
      by (symmetry; apply in_ram_true; lia).
    eexists. split; [f_equal; lia | cbn [pointer]; lia].
  - intros Hno.
    rewrite fb_alloc_no_wrap by (rewrite ?uint32_mod_value; lia).
    replace (pointer s - round_up size - 4 <? FB_PIXELS L) with true
      by (symmetry; apply Z.ltb_lt; lia).
    reflexivity.
  - intros Hwrap np.
    assert (Enp : u32 (u32 (pointer s - round_up size) - 4) = np).
    { rewrite u32_idemp_sub.
      replace (pointer s - round_up size - 4) with (np - 4294967296)
        by (unfold np; rewrite ?uint32_mod_value; lia).
      rewrite <- (u32_plus_mod (np - 4294967296)).
      replace (np - 4294967296 + 4294967296) with np by lia.
      apply u32_small. unfold is_uint32, np.
      rewrite ?uint32_mod_value. lia. }
    split; [unfold np; rewrite ?uint32_mod_value; lia | ].
    rewrite fb_alloc_unfold. cbv zeta. rewrite Enp.
    replace (size =? 0) with false by (symmetry; apply Z.eqb_neq; lia).
    replace (np <? FB_PIXELS L) with false
      by (symmetry; apply Z.ltb_ge; unfold np;
          rewrite ?uint32_mod_value; lia).
    destruct (in_ram L np 4) eqn:Hram; [ | reflexivity].
    apply in_ram_true in Hram.
    assert (Eres : u32 (pointer s - round_up size) = np + 4).
    { replace (pointer s - round_up size) with (np + 4 - 4294967296)
        by (unfold np; rewrite ?uint32_mod_value; lia).
      rewrite <- (u32_plus_mod (np + 4 - 4294967296)).
      replace (np + 4 - 4294967296 + 4294967296) with (np + 4) by lia.
      apply u32_small. unfold is_uint32. rewrite ?uint32_mod_value. lia. }
    rewrite Eres, Hbb. reflexivity.
Qed.

Lemma fb_alloc_capacity_test_witness :
  (exists s',
     fb_alloc example_layout 996 boot_state = Ret 1004 s' /\
     pointer s' = 1000) /\
  fb_alloc example_layout 997 boot_state
  = Raise (MemoryError "FB Alloc Collision!!!") boot_state /\
  fb_alloc example_layout 2000 boot_state = Fault boot_state.
Proof.
  split; [ | split].
  - apply (proj1 (fb_alloc_capacity_test example_layout 996 boot_state
                    ltac:(lia) ltac:(reflexivity)
                    ltac:(simpl; lia))).
    vm_compute. discriminate.
  - apply (proj1 (proj2 (fb_alloc_capacity_test example_layout 997 boot_state
                           ltac:(lia) ltac:(reflexivity)
                           ltac:(simpl; lia)))).
    vm_compute. split; [reflexivity | discriminate].
  - destruct (proj2 (proj2 (fb_alloc_capacity_test example_layout 2000
                              boot_state ltac:(lia) ltac:(reflexivity)
                              ltac:(simpl; lia))))
      as (_ & H).
    + reflexivity.
    + exact H.
Defined.

(** X2: the block a returning [fb_alloc] hands out for a size from 1 to
    4294967292 that is, with padding and header, no larger than the
    cursor's own address starts 4 bytes above the new cursor, which is at
    or above the floor, holds [size] bytes and ends at most 3 padding bytes
    below the old cursor. *)
Theorem fb_alloc_block_bounds (L : layout) (size p : Z) (s s' : state) :
  0 < size -> size + 3 < UINT32_MOD ->
  pointer s < UINT32_MOD -> block_bytes size <= pointer s ->
  fb_alloc L size s = Ret p s' ->
  FB_PIXELS L <= pointer s' /\ pointer s' + 4 = p /\
  p + size <= pointer s /\ pointer s < p + size + 4.
Proof.
  intros Hpos Hsmall Hp Hfit H.
  pose proof (block_bytes_round_up size Hpos Hsmall) as Hbb.
  pose proof (round_up_bounds size ltac:(lia) Hsmall) as Hr.
  rewrite fb_alloc_no_wrap in H by lia.
  destruct (Z.ltb_spec (pointer s - round_up size - 4) (FB_PIXELS L));
    [discriminate | ].
  destruct (in_ram L (pointer s - round_up size - 4) 4); [ | discriminate].
  inversion H. cbn [pointer]. lia.
Qed.

Lemma fb_alloc_block_bounds_witness :
  1000 <= pointer example_state /\ pointer example_state + 4 = 1988 /\
  1988 + 10 <= pointer boot_state /\ pointer boot_state < 1988 + 10 + 4.
Proof.
  apply (fb_alloc_block_bounds example_layout 10 1988 boot_state
           example_state).
  - lia.
  - reflexivity.
  - reflexivity.
  - vm_compute. discriminate.
  - reflexivity.
Defined.

(** X3: with a floor that is not a negative address, the pointer a
    returning [fb_alloc] gives is null exactly when the size is 0. *)
Theorem fb_alloc_null_iff_zero (L : layout) (size p : Z) (s s' : state) :
  0 <= FB_PIXELS L ->
  fb_alloc L size s = Ret p s' ->
  (p = NULL <-> size = 0).
Proof.
  intros Hfl H.
  destruct (fb_alloc_ret_inv _ _ _ _ _ H)
    as [(E & -> & _) | (Hz & np & _ & Hf & _ & _ & -> & _)].
  - split; auto.
  - unfold NULL. split; intros; [lia | contradiction].
Qed.

Lemma fb_alloc_null_iff_zero_witness : 1988 = NULL <-> 10 = 0.
Proof.
  apply (fb_alloc_null_iff_zero example_layout 10 1988 boot_state
           example_state).
  - simpl. lia.
  - reflexivity.
Defined.

(** X4: an allocation whose block is no larger than the cursor's own
    address leaves the blocks that are live alone: whatever such an
    [fb_alloc] does, every cell at or above the old cursor keeps its
    content, and the same holds for [fb_alloc0] of a size up to
    4294967292, also when it faults. *)
Theorem live_blocks_preserved (L : layout) (size x : Z) (s : state) :
  pointer s < UINT32_MOD -> round_up size + 4 <= pointer s ->
  pointer s <= x ->
  mem (final_state (fb_alloc L size s)) x = mem s x /\
  (0 <= size -> size + 3 < UINT32_MOD ->
   mem (final_state (fb_alloc0 L size s)) x = mem s x).
Proof.
  intros Hp Hfit Hx.
  pose proof (round_up_range size) as [Hr _].
  assert (Ha : mem (final_state (fb_alloc L size s)) x = mem s x).
  { destruct (Z.eq_dec size 0) as [E | E].
    - subst size. reflexivity.
    - rewrite fb_alloc_no_wrap by assumption.
      destruct (pointer s - round_up size - 4 <? FB_PIXELS L);
        [reflexivity | ].
      destruct (in_ram L (pointer s - round_up size - 4) 4);
        [ | reflexivity].
      cbn [final_state mem]. apply store32_outside. lia. }
  split; [exact Ha | ].
  intros Hpos Hsmall. rewrite fb_alloc0_unfold.
  destruct (fb_alloc L size s) as [p s1 | e s1 | s1] eqn:E; try exact Ha.
  cbn [final_state] in Ha. rewrite memset_ram_unfold.
  rewrite (u32_small size) by (unfold is_uint32; lia).
  destruct (Z.eqb_spec size 0) as [Ez | Ez]; [exact Ha | ].
  pose proof (round_up_bounds size Hpos Hsmall) as Hrb.
  destruct (fb_alloc_ret_inv _ _ _ _ _ E)
    as [(E0 & _) | (_ & np & Enp & Hfl & Hlo & Hhi & Hpp & Hres & _)];
    [contradiction | ].
  assert (Hpv : p = pointer s - round_up size).
  { rewrite Hres. apply u32_small. unfold is_uint32. lia. }
  destruct (in_ram L p size) eqn:Hram; cbn [final_state mem].
  - rewrite memset_outside by lia. exact Ha.
  - assert (Hout : ram_end L < p + size).
    { destruct (Z_lt_le_dec (ram_end L) (p + size)) as [Lt | Le];
        [exact Lt | ].
      exfalso. assert (in_ram L p size = true)
        by (apply in_ram_true; lia). congruence. }
    rewrite memset_outside; [exact Ha | ].
    destruct (ram_start L <=? p); lia.
Qed.

Lemma live_blocks_preserved_witness :
  mem (final_state (fb_alloc example_layout 20 example_state)) 1984
  = mem example_state 1984 /\
  (0 <= 20 -> 20 + 3 < UINT32_MOD ->
   mem (final_state (fb_alloc0 example_layout 20 example_state)) 1984
   = mem example_state 1984).
Proof.
  apply (live_blocks_preserved example_layout 20 1984 example_state).
  - reflexivity.
  - vm_compute. discriminate.
  - vm_compute. discriminate.
Defined.

Lemma total_bytes_nonneg (sizes : list Z) :
  Forall (fun size => 0 < size) sizes -> 0 <= total_bytes sizes.
Proof.
  induction 1 as [ | a l Ha _ IHl].
  - simpl. lia.
  - cbn [total_bytes fold_right]. fold (total_bytes l).
    pose proof (block_bytes_pos a Ha). lia.
Qed.

(** X5: a sequence of allocations of sizes above 0 whose blocks are each no
    larger than the address of the floor, started with the cursor between
    the floor and the base, goes through exactly when the sum of the padded
    sizes and headers fits above the floor, and then the cursor has come
    down by that sum. *)
Theorem alloc_seq_footprint (L : layout) (sizes : list Z) (s : state) :
  FB_PIXELS L <= pointer s <= _fs_cache L ->
  Forall (fun size => 0 < size /\ safe_size L size) sizes ->
  (forall s1, alloc_seq L sizes s = Ret tt s1 ->
              pointer s1 = pointer s - total_bytes sizes) /\
  ((exists s1, alloc_seq L sizes s = Ret tt s1) <->
   total_bytes sizes <= pointer s - FB_PIXELS L).
Proof.
  intros Hp Hsizes. revert s Hp.
  induction Hsizes as [ | size rest [Hpos Hsafe] Hrest IH]; intros s Hp.
  - simpl. unfold ret. split.
    + intros s1 H. inversion H. lia.
    + split; [intros _; lia | intros _; eauto].
  - cbn [alloc_seq total_bytes fold_right].
    fold (total_bytes rest).
    pose proof (layout_facts L) as (H0 & H1 & H2 & H3).
    destruct (safe_size_small L size Hsafe) as [_ Hsmall].
    pose proof (block_bytes_pos size Hpos) as Hbb.
    pose proof (block_bytes_round_up size Hpos Hsmall) as Hru.
    destruct Hsafe as [_ Hsafe].
    assert (Hrest0 : 0 <= total_bytes rest).
    { apply total_bytes_nonneg.
      eapply Forall_impl; [ | exact Hrest]. simpl. tauto. }
    unfold bind.
    rewrite fb_alloc_no_wrap by lia.
    destruct (Z.ltb_spec (pointer s - round_up size - 4) (FB_PIXELS L))
      as [Hno | Hfit].
    + split.
      * intros s1 H. discriminate.
      * split; [intros (s1 & H); discriminate | lia].
    + replace (in_ram L (pointer s - round_up size - 4) 4) with true
        by (symmetry; apply in_ram_true; lia).
      destruct (IH (mkState (pointer s - round_up size - 4)
                      (store32 (mem s) (pointer s - round_up size - 4)
                         (u32 (round_up size + 4))))
                  ltac:(cbn [pointer]; lia)) as [IH1 IH2].
      cbn [pointer] in IH1, IH2. split.
      * intros s1 H. rewrite (IH1 s1 H). lia.
      * rewrite IH2. lia.
Qed.

Lemma alloc_seq_footprint_witness :
  (forall s1, alloc_seq example_layout [10; 1; 256] boot_state = Ret tt s1 ->
              pointer s1 = pointer boot_state - total_bytes [10; 1; 256]) /\
  ((exists s1, alloc_seq example_layout [10; 1; 256] boot_state = Ret tt s1)
   <-> total_bytes [10; 1; 256] <= pointer boot_state - FB_PIXELS example_layout).
Proof.
  apply (alloc_seq_footprint example_layout [10; 1; 256] boot_state).
  - simpl. lia.
  - unfold safe_size.
    repeat (apply Forall_cons;
            [split; [lia | split; [lia | vm_compute; discriminate]] | ]).
    apply Forall_nil.
Defined.

(** X6: with fewer than 4 bytes left between the floor and the cursor,
    [fb_alloc] of a non-zero size whose rounded block is no larger than
    the cursor's own address raises the collision error and leaves the
    state untouched. *)
Theorem fb_alloc_full_arena (L : layout) (size : Z) (s : state) :
  pointer s - FB_PIXELS L < 4 -> size <> 0 ->
  pointer s < UINT32_MOD -> round_up size + 4 <= pointer s ->
  fb_alloc L size s = Raise (MemoryError "FB Alloc Collision!!!") s.
Proof.
  intros Hfull Hz Hp Hfit. rewrite fb_alloc_no_wrap by assumption.
  pose proof (round_up_range size) as [Hr _].
  replace (pointer s - round_up size - 4 <? FB_PIXELS L) with true
    by (symmetry; apply Z.ltb_lt; lia).
  reflexivity.
Qed.

Lemma fb_alloc_full_arena_witness :
  fb_alloc example_layout 100 (mkState 1003 zero_mem)
  = Raise (MemoryError "FB Alloc Collision!!!") (mkState 1003 zero_mem).
Proof.
  apply (fb_alloc_full_arena example_layout 100 (mkState 1003 zero_mem)).
  - simpl. lia.
  - discriminate.
  - reflexivity.
  - vm_compute. discriminate.
Defined.







(** X9: in a state reached from boot by returning calls whose sizes are
    safe, with the floor at or below the base, [fb_free] returns, writes
    nothing to memory, never lowers the cursor and never takes it above
    the base; the state it leaves is of the same kind. *)
Theorem fb_free_in_safe_state (L : layout) (s : state) :
  FB_PIXELS L <= _fs_cache L -> safely_reachable L s ->
  exists s',
    fb_free L s = Ret tt s' /\ mem s' = mem s /\
    pointer s <= pointer s' <= _fs_cache L /\
    safely_reachable L s'.
Proof.
  intros Hfb Hs.
  pose proof (safely_reachable_chain L Hfb s Hs) as Hc.
  destruct (chain_fb_free L s Hc) as (s' & Hf & Hm & Hle & Hc').
  exists s'. split; [exact Hf | ]. split; [exact Hm | ].
  split; [split; [exact Hle | exact (chain_le_base _ _ _ Hc')] | ].
  apply safe_step with (s := s) (c := CallFree);
    [exact Hs | exact I | ].
  cbn [run_call]. exact Hf.
Qed.

Lemma fb_free_in_safe_state_witness :
  exists s',
    fb_free example_layout example_state = Ret tt s' /\
    mem s' = mem example_state /\
    pointer example_state <= pointer s' <= _fs_cache example_layout /\
    safely_reachable example_layout s'.
Proof.
  apply (fb_free_in_safe_state example_layout example_state).
  - simpl. lia.
  - apply safe_step with (s := boot_state) (c := CallAlloc 10).
    + apply (safe_boot example_layout zero_mem).
    + simpl. unfold safe_size. split; [lia | vm_compute; discriminate].
    + reflexivity.
Defined.

(** The header word is not checked: over a header of 4294967280 at cursor
    1984, [fb_free] wraps the cursor down to 1968. *)
Example fb_free_wraps_on_large_header :
  fb_free example_layout
    (mkState 1984 (store32 zero_mem 1984 4294967280))
  = Ret tt (mkState 1968 (store32 zero_mem 1984 4294967280)).
Proof. reflexivity. Qed.

(** X10: [fb_alloc_init0] recovers from any state, whatever its cursor: it
    returns with the cursor at the base and memory untouched, the state is
    one the invariants hold for, and any number of [fb_free] calls after it
    change nothing. *)
Theorem fb_alloc_init0_resets (L : layout) (s : state) (n : nat) :
  exists s',
    fb_alloc_init0 L s = Ret tt s' /\
    pointer s' = _fs_cache L /\ mem s' = mem s /\
    reachable L s' /\
    free_n L n s' = Ret tt s'.
Proof.
  eexists. split; [reflexivity | ]. cbn [pointer mem].
  split; [reflexivity | ]. split; [reflexivity | ]. split.
  - apply reach_boot.
  - induction n as [ | n IH]; [reflexivity | ].
    rewrite free_n_succ, fb_free_unfold. cbn [pointer].
    rewrite Z.ltb_irrefl. exact IH.
Qed.

(** [fb_free] on a state whose cursor holds the header of a block pushed
    from cursor [q], after inner calls that restored the state they
    started from. *)
Lemma fb_free_pops (L : layout) (q : Z) (sa sb : state) :
  FB_PIXELS L <= pointer sa -> pointer sa + 4 <= q -> q <= _fs_cache L ->
  load32 (mem sa) (pointer sa) = q - pointer sa ->
  pointer sb = pointer sa ->
  (forall x, pointer sa <= x -> mem sb x = mem sa x) ->
  fb_free L sb = Ret tt (mkState q (mem sb)).
Proof.
  intros Hf Hlt Hq Hhd Hp Hm.
  pose proof (layout_facts L) as (H0 & H1 & H2 & H3).
  rewrite uint32_mod_value in H3.
  rewrite fb_free_unfold, Hp.
  replace (pointer sa <? _fs_cache L) with true
    by (symmetry; apply Z.ltb_lt; lia).
  replace (in_ram L (pointer sa) 4) with true
    by (symmetry; apply in_ram_true; lia).
  rewrite (load32_ext (mem sa) (mem sb)) by (intros x Hx; apply Hm; lia).
  rewrite Hhd. replace (pointer sa + (q - pointer sa)) with q by lia.
  rewrite (u32_small q) by (unfold is_uint32; rewrite uint32_mod_value; lia).
  reflexivity.
Qed.

(** What a returning allocation of a safe non-zero size leaves, for
    [fb_alloc] and for [fb_alloc0]. *)
Lemma safe_alloc_pushes (L : layout) (size p : Z) (s sa : state) :
  FB_PIXELS L <= pointer s <= _fs_cache L ->
  size <> 0 -> safe_size L size ->
  fb_alloc L size s = Ret p sa \/ fb_alloc0 L size s = Ret p sa ->
  FB_PIXELS L <= pointer sa /\ pointer sa + 4 <= pointer s /\
  pointer sa = pointer s - block_bytes size /\ p = pointer sa + 4 /\
  load32 (mem sa) (pointer sa) = pointer s - pointer sa /\
  (forall x, pointer s <= x -> mem sa x = mem s x).
Proof.
  intros Hp Hz Hsafe H.
  destruct (safe_size_no_wrap L size s Hz Hsafe ltac:(lia))
    as (Hfit & Hpos & Hsmall & Hle).
  pose proof (block_bytes_round_up size Hpos Hsmall) as Hbb.
  destruct H as [H | H].
  - destruct (fb_alloc_pushes L size s sa p ltac:(lia) Hz Hfit H)
      as (Hpa & Hpp & Hfl & Hlt & Hhd & Hfr).
    repeat split; try lia. intros x Hx. apply Hfr. lia.
  - destruct (fb_alloc0_ret_inv _ _ _ _ _ H) as (s0 & H0 & Hset).
    destruct (fb_alloc_pushes L size s s0 p ltac:(lia) Hz Hfit H0)
      as (Hpa & Hpp & Hfl & Hlt & Hhd & Hfr).
    destruct Hset as [(_ & ->) | (_ & _ & _ & ->)]; cbn [pointer mem].
    + repeat split; try lia. intros x Hx. apply Hfr. lia.
    + rewrite (u32_small size) by (unfold is_uint32; lia).
      rewrite (load32_ext (mem s0))
        by (intros x Hx; apply memset_outside; lia).
      repeat split; try lia.
      intros x Hx. rewrite memset_outside by lia. apply Hfr. lia.
Qed.

(** X11: a properly nested list of allocations of safe non-zero sizes and
    frees that runs to its end, started with the cursor between the floor
    and the base, ends with the cursor where it started and with every
    cell at or above that cursor unchanged. *)
Theorem nested_calls_restore (L : layout) (cs : list call) :
  nested L cs ->
  forall s s1 : state,
    FB_PIXELS L <= pointer s <= _fs_cache L ->
    run_calls L cs s = Ret tt s1 ->
    pointer s1 = pointer s /\
    forall x, pointer s <= x -> mem s1 x = mem s x.
Proof.
  intros Hn.
  assert (Hblock : forall (inner : list call) (size p : Z) (s sa s1 : state),
    (forall s s1, FB_PIXELS L <= pointer s <= _fs_cache L ->
                  run_calls L inner s = Ret tt s1 ->
                  pointer s1 = pointer s /\
                  forall x, pointer s <= x -> mem s1 x = mem s x) ->
    FB_PIXELS L <= pointer s <= _fs_cache L ->
    size <> 0 -> safe_size L size ->
    fb_alloc L size s = Ret p sa \/ fb_alloc0 L size s = Ret p sa ->
    run_calls L (inner ++ [CallFree]) sa = Ret tt s1 ->
    pointer s1 = pointer s /\
    forall x, pointer s <= x -> mem s1 x = mem s x).
  { intros inner size p s sa s1 IH Hp Hz Hsafe Ha Hrun.
    destruct (safe_alloc_pushes L size p s sa Hp Hz Hsafe Ha)
      as (Hf & Hlt & _ & _ & Hhd & Hfr).
    apply run_calls_app in Hrun. destruct Hrun as (sb & Hin & Hfree).
    destruct (IH sa sb ltac:(lia) Hin) as (Hpb & Hmb).
    rewrite run_calls_cons in Hfree. cbn [run_call run_calls] in Hfree.
    rewrite (fb_free_pops L (pointer s) sa sb Hf Hlt ltac:(lia) Hhd Hpb Hmb)
      in Hfree.
    unfold ret in Hfree. inversion Hfree. cbn [pointer mem].
    split; [reflexivity | ].
    intros x Hx. rewrite Hmb by lia. apply Hfr. exact Hx. }
  induction Hn as [ | size inner Hz Hsafe Hin IH | size inner Hz Hsafe Hin IH
                   | first second H1 IH1 H2 IH2];
    intros s s1 Hp Hrun.
  - simpl in Hrun. unfold ret in Hrun. inversion Hrun. auto.
  - rewrite run_calls_cons in Hrun. cbn [run_call] in Hrun.
    unfold bind, ret in Hrun.
    destruct (fb_alloc L size s) as [p sa | e sa | sa] eqn:Ea;
      try discriminate.
    exact (Hblock inner size p s sa s1 IH Hp Hz Hsafe (or_introl Ea) Hrun).
  - rewrite run_calls_cons in Hrun. cbn [run_call] in Hrun.
    unfold bind at 1 in Hrun. unfold ret in Hrun.
    destruct (fb_alloc0 L size s) as [p sa | e sa | sa] eqn:Ea;
      try discriminate.
    exact (Hblock inner size p s sa s1 IH Hp Hz Hsafe (or_intror Ea) Hrun).
  - apply run_calls_app in Hrun. destruct Hrun as (sm & Hr1 & Hr2).
    destruct (IH1 s sm Hp Hr1) as (Hp1 & Hm1).
    destruct (IH2 sm s1 ltac:(lia) Hr2) as (Hp2 & Hm2).
    split; [lia | ].
    intros x Hx. rewrite Hm2 by lia. apply Hm1. exact Hx.
Qed.

Lemma nested_calls_restore_witness :
  pointer (final_state
             (run_calls example_layout
                [CallAlloc 10; CallAlloc0 20; CallFree; CallFree]
                boot_state))
  = pointer boot_state /\
  forall x, pointer boot_state <= x ->
    mem (final_state
           (run_calls example_layout
              [CallAlloc 10; CallAlloc0 20; CallFree; CallFree]
              boot_state)) x
    = mem boot_state x.
Proof.
  apply (nested_calls_restore example_layout
           [CallAlloc 10; CallAlloc0 20; CallFree; CallFree]).
  - apply (nested_alloc example_layout 10 [CallAlloc0 20; CallFree]);
      [discriminate | split; [lia | vm_compute; discriminate] | ].
    apply (nested_alloc0 example_layout 20 []);
      [discriminate | split; [lia | vm_compute; discriminate]
      | apply nested_nil].
  - simpl. lia.
  - reflexivity.
Defined.

(** X23: what the invariants of the arena come to for safe sizes. In every
    state reached from boot by returning calls whose sizes are safe, with
    the floor at or below the base, the cursor lies between the floor and
    the base; when the base is a multiple of 4 so is the cursor, and so is
    every pointer that [fb_alloc] or [fb_alloc0] of a safe size returns
    there. *)
Theorem safe_sizes_keep_invariants (L : layout) (s : state) :
  FB_PIXELS L <= _fs_cache L -> safely_reachable L s ->
  FB_PIXELS L <= pointer s <= _fs_cache L /\
  (_fs_cache L mod 4 = 0 ->
   pointer s mod 4 = 0 /\
   forall size p s',
     safe_size L size ->
     fb_alloc L size s = Ret p s' \/ fb_alloc0 L size s = Ret p s' ->
     p mod 4 = 0).
Proof.
  intros Hfb Hs.
  pose proof (safely_reachable_chain L Hfb s Hs) as Hc.
  pose proof (chain_le_base _ _ _ Hc) as Hb.
  pose proof (chain_ge_floor _ _ _ Hfb Hc) as Hf.
  pose proof (chain_offset_aligned _ _ _ Hc) as Ho.
  split; [lia | ]. intros Hbase.
  assert (Hal : forall q, (_fs_cache L - q) mod 4 = 0 -> q mod 4 = 0).
  { intros q Hq.
    pose proof (Z.div_mod (_fs_cache L) 4 ltac:(lia)).
    pose proof (Z.div_mod (_fs_cache L - q) 4 ltac:(lia)).
    replace q with (0 + (_fs_cache L / 4 - (_fs_cache L - q) / 4) * 4)
      by lia.
    rewrite Z.mod_add by lia. reflexivity. }
  split; [apply Hal; exact Ho | ].
  intros size p s' Hsafe Hret.
  destruct (Z.eq_dec size 0) as [E | E].
  - subst size. destruct Hret as [H | H].
    + rewrite fb_alloc_unfold in H. simpl in H. inversion H. reflexivity.
    + rewrite fb_alloc0_unfold, fb_alloc_unfold in H. simpl in H.
      inversion H. reflexivity.
  - assert (Hc' : chain L (mem s') (pointer s')).
    { destruct Hret as [H | H].
      - exact (chain_fb_alloc L Hfb size s s' p Hsafe Hc H).
      - exact (chain_fb_alloc0 L Hfb size s s' p Hsafe Hc H). }
    destruct (safe_alloc_pushes L size p s s' ltac:(lia) E Hsafe Hret)
      as (_ & _ & _ & Hpp & _).
    pose proof (Hal _ (chain_offset_aligned _ _ _ Hc')) as Hps.
    rewrite Hpp.
    pose proof (Z.div_mod (pointer s') 4 ltac:(lia)).
    replace (pointer s' + 4) with (0 + (pointer s' / 4 + 1) * 4) by lia.
    rewrite Z.mod_add by lia. reflexivity.
Qed.

Lemma safe_sizes_keep_invariants_witness :
  FB_PIXELS example_layout <= pointer example_state
  <= _fs_cache example_layout /\
  (_fs_cache example_layout mod 4 = 0 ->
   pointer example_state mod 4 = 0 /\
   forall size p s',
     safe_size example_layout size ->
     fb_alloc example_layout size example_state = Ret p s' \/
     fb_alloc0 example_layout size example_state = Ret p s' ->
     p mod 4 = 0).
Proof.
  apply (safe_sizes_keep_invariants example_layout example_state).
  - simpl. lia.
  - apply safe_step with (s := boot_state) (c := CallAlloc 10).
    + apply (safe_boot example_layout zero_mem).
    + simpl. unfold safe_size. split; [lia | vm_compute; discriminate].
    + reflexivity.
Defined.

(** X24: [fb_alloc0] is [fb_alloc] followed by the zero fill, which is
    where it can stop. It raises or faults as [fb_alloc] does; where
    [fb_alloc] returns a block, [fb_alloc0] returns the same pointer with
    the same cursor, the same header and the rest of memory as [fb_alloc]
    left it, and the [size] bytes from the pointer zero, if those bytes lie
    in the RAM, and faults with the same cursor if they do not. *)
Theorem fb_alloc0_contract (L : layout) (size : Z) (s : state) :
  is_uint32 size ->
  match fb_alloc L size s with
  | Raise e s1 => fb_alloc0 L size s = Raise e s1
  | Fault s1 => fb_alloc0 L size s = Fault s1
  | Ret p s1 =>
      if (size =? 0) || in_ram L p size
      then exists s2,
             fb_alloc0 L size s = Ret p s2 /\
             pointer s2 = pointer s1 /\
             load32 (mem s2) (pointer s2) = load32 (mem s1) (pointer s1) /\
             (forall x, p <= x < p + size -> mem s2 x = 0) /\
             (forall x, ~ p <= x < p + size -> mem s2 x = mem s1 x)
      else exists s2,
             fb_alloc0 L size s = Fault s2 /\ pointer s2 = pointer s1
  end.
Proof.
  intros Hty. rewrite fb_alloc0_unfold.
  destruct (fb_alloc L size s) as [p s1 | e s1 | s1] eqn:Ea;
    try reflexivity.
  rewrite memset_ram_unfold, (u32_small size Hty).
  destruct (Z.eqb_spec size 0) as [Ez | Ez].
  - subst size. cbn [orb]. exists s1. repeat split; try reflexivity.
    intros x Hx. lia.
  - cbn [orb]. destruct (in_ram L p size) eqn:Hram.
    + eexists. split; [reflexivity | ]. cbn [pointer mem].
      split; [reflexivity | ].
      destruct (fb_alloc_ret_inv _ _ _ _ _ Ea)
        as [(E0 & _) | (_ & np & _ & _ & _ & _ & Hpp & _ & Hs1)];
        [contradiction | ].
      assert (Hps : pointer s1 + 4 = p) by (rewrite Hs1; cbn [pointer]; lia).
      destruct Hty as [Hs0 _].
      split; [ | split].
      * apply load32_ext. intros x Hx. apply memset_outside. lia.
      * intros x Hx. apply memset_inside. lia.
      * intros x Hx. apply memset_outside. lia.
    + eexists. split; reflexivity.
Qed.

Lemma fb_alloc0_contract_witness :
  exists s2,
    fb_alloc0 example_layout 10 boot_state = Ret 1988 s2 /\
    pointer s2 = pointer example_state /\
    load32 (mem s2) (pointer s2)
    = load32 (mem example_state) (pointer example_state) /\
    (forall x, 1988 <= x < 1988 + 10 -> mem s2 x = 0) /\
    (forall x, ~ 1988 <= x < 1988 + 10 -> mem s2 x = mem example_state x).
Proof.
  apply (fb_alloc0_contract example_layout 10 boot_state).
  unfold is_uint32. rewrite uint32_mod_value. lia.
Defined.

Lemma free_n_snoc (L : layout) (n : nat) (s s1 : state) :
  free_n L n s = Ret tt s1 ->
  free_n L (S n) s = fb_free L s1.
Proof.
  revert s. induction n as [ | n IH]; intros s H.
  - simpl in H. unfold ret in H. inversion H. subst s1.
    rewrite free_n_succ.
    destruct (fb_free L s) as [[] s' | e s' | s']; reflexivity.
  - rewrite free_n_succ in H. rewrite free_n_succ.
    destruct (fb_free L s) as [[] s' | e s' | s']; try discriminate.
    apply IH. exact H.
Qed.

(** After a sequence of allocations of safe non-zero sizes, as many frees
    bring the cursor back; memory from the old cursor up is as before. *)
Lemma alloc_seq_free_n (L : layout) (sizes : list Z) :
  forall s s1 : state,
    FB_PIXELS L <= pointer s <= _fs_cache L ->
    Forall (fun size => size <> 0 /\ safe_size L size) sizes ->
    alloc_seq L sizes s = Ret tt s1 ->
    free_n L (length sizes) s1 = Ret tt (mkState (pointer s) (mem s1)) /\
    (forall x, pointer s <= x -> mem s1 x = mem s x).
Proof.
  induction sizes as [ | size rest IH]; intros s s1 Hp Hsizes Hrun.
  - simpl in Hrun. unfold ret in Hrun. inversion Hrun. subst s1.
    simpl. unfold ret. destruct s. auto.
  - inversion Hsizes as [ | ? ? [Hz Hsafe] Hrest]. subst.
    simpl in Hrun. unfold bind in Hrun.
    destruct (fb_alloc L size s) as [p sa | e sa | sa] eqn:Ea;
      try discriminate.
    destruct (safe_alloc_pushes L size p s sa Hp Hz Hsafe (or_introl Ea))
      as (Hf & Hlt & _ & _ & Hhd & Hfr).
    destruct (IH sa s1 ltac:(lia) Hrest Hrun) as (Hn & Hfr2).
    change (length (size :: rest)) with (S (length rest)).
    rewrite (free_n_snoc L _ _ _ Hn). split.
    + apply (fb_free_pops L (pointer s) sa (mkState (pointer sa) (mem s1)));
        try assumption; try reflexivity; try lia.
    + intros x Hx. rewrite Hfr2 by lia. apply Hfr. exact Hx.
Qed.

(** X25: the stack discipline for safe sizes. After [fb_alloc] has
    returned for each of n safe non-zero sizes in turn, started with the
    cursor between the floor and the base, n calls of [fb_free] return and
    bring the cursor back to where it was before the first allocation,
    with memory as the allocations left it and unchanged from that cursor
    up. *)
Theorem stack_discipline_safe_sizes
  (L : layout) (sizes : list Z) (s s1 : state) :
  FB_PIXELS L <= pointer s <= _fs_cache L ->
  Forall (fun size => size <> 0 /\ safe_size L size) sizes ->
  alloc_seq L sizes s = Ret tt s1 ->
  free_n L (length sizes) s1 = Ret tt (mkState (pointer s) (mem s1)) /\
  (forall x, pointer s <= x -> mem s1 x = mem s x).
Proof.
  intros Hp Hsizes Hrun.
  exact (alloc_seq_free_n L sizes s s1 Hp Hsizes Hrun).
Qed.

Lemma stack_discipline_safe_sizes_witness :
  free_n example_layout 3
    (final_state (alloc_seq example_layout [10; 1; 256] boot_state))
  = Ret tt
      (mkState 2000
         (mem (final_state
                 (alloc_seq example_layout [10; 1; 256] boot_state)))) /\
  (forall x, 2000 <= x ->
     mem (final_state (alloc_seq example_layout [10; 1; 256] boot_state)) x
     = mem boot_state x).
Proof.
  apply (stack_discipline_safe_sizes example_layout [10; 1; 256] boot_state
           (final_state (alloc_seq example_layout [10; 1; 256] boot_state))).
  - simpl. lia.
  - unfold safe_size.
    repeat (apply Forall_cons;
            [split; [lia | split; [lia | vm_compute; discriminate]] | ]).
    apply Forall_nil.
  - reflexivity.
Defined.
(** ** Properties of the CMSIS intrinsics *)

Lemma s32_small (x : Z) : is_int32 x -> s32 x = x.
Proof.
  unfold is_int32, s32. intros H.
  change (2 ^ 31) with 2147483648 in *. change (2 ^ 32) with 4294967296.
  rewrite Z.mod_small by lia. lia.
Qed.

Lemma s64_small (x : Z) : is_int64 x -> s64 x = x.
Proof.
  unfold is_int64, s64. intros H.
  change (2 ^ 63) with 9223372036854775808 in *.
  change (2 ^ 64) with 18446744073709551616.
  rewrite Z.mod_small by lia. lia.
Qed.

Lemma pow2_bounds (n k : Z) : 0 <= n <= k -> 1 <= 2 ^ n <= 2 ^ k.
Proof.
  intros H. split.
  - change 1 with (2 ^ 0). apply Z.pow_le_mono_r; lia.
  - apply Z.pow_le_mono_r; lia.
Qed.

Lemma SSAT_in_range (val sat : Z) :
  is_int32 val -> 1 <= sat <= 32 ->
  __SSAT val sat = clamp (- 2 ^ (sat - 1)) (2 ^ (sat - 1) - 1) val.
Proof.
  intros Hval Hsat. unfold __SSAT.
  replace ((1 <=? sat) && (sat <=? 32)) with true
    by (symmetry; apply andb_true_iff; split; apply Z.leb_le; lia).
  pose proof (pow2_bounds (sat - 1) 31 ltac:(lia)) as Hp.
  change (2 ^ 31) with 2147483648 in Hp.
  rewrite (u32_small (sat - 1))
    by (unfold is_uint32; rewrite uint32_mod_value; lia).
  rewrite Z.shiftl_1_l.
  rewrite (u32_small (2 ^ (sat - 1)))
    by (unfold is_uint32; rewrite uint32_mod_value; lia).
  rewrite (u32_small (2 ^ (sat - 1) - 1))
    by (unfold is_uint32; rewrite uint32_mod_value; lia).
  rewrite (s32_small (2 ^ (sat - 1) - 1))
    by (unfold is_int32; change (2 ^ 31) with 2147483648; lia).
  rewrite (s32_small (-1 - (2 ^ (sat - 1) - 1)))
    by (unfold is_int32; change (2 ^ 31) with 2147483648; lia).
  unfold clamp. rewrite Z.gtb_ltb.
  destruct (Z.ltb_spec (2 ^ (sat - 1) - 1) val);
    destruct (Z.ltb_spec val (-1 - (2 ^ (sat - 1) - 1))); lia.
Qed.

Lemma USAT_in_range (val sat : Z) :
  is_int32 val -> 0 <= sat <= 31 ->
  __USAT val sat = clamp 0 (2 ^ sat - 1) val.
Proof.
  intros Hval Hsat. unfold __USAT.
  replace (sat <=? 31) with true by (symmetry; apply Z.leb_le; lia).
  pose proof (pow2_bounds sat 31 ltac:(lia)) as Hp.
  change (2 ^ 31) with 2147483648 in Hp.
  rewrite Z.shiftl_1_l.
  rewrite (u32_small (2 ^ sat))
    by (unfold is_uint32; rewrite uint32_mod_value; lia).
  rewrite (u32_small (2 ^ sat - 1))
    by (unfold is_uint32; rewrite uint32_mod_value; lia).
  rewrite (s32_small (2 ^ sat - 1))
    by (unfold is_int32; change (2 ^ 31) with 2147483648; lia).
  unfold clamp. rewrite Z.gtb_ltb.
  destruct (Z.ltb_spec (2 ^ sat - 1) val); [lia | ].
  destruct (Z.ltb_spec val 0); [lia | ].
  unfold is_int32 in Hval. change (2 ^ 31) with 2147483648 in Hval.
  rewrite u32_small
    by (unfold is_uint32; rewrite uint32_mod_value; lia).
  lia.
Qed.

(** X12: for a saturation width from 1 to 32, [__SSAT] clamps a 32-bit
    signed value into the signed range of that width, from -2^(sat-1) to
    2^(sat-1)-1; for any other width it returns the value as it is. *)
Theorem SSAT_clamps (val sat : Z) :
  is_int32 val ->
  (1 <= sat <= 32 ->
   __SSAT val sat = clamp (- 2 ^ (sat - 1)) (2 ^ (sat - 1) - 1) val) /\
  (sat < 1 \/ 32 < sat -> __SSAT val sat = val).
Proof.
  intros Hval. split.
  - apply SSAT_in_range. exact Hval.
  - intros Hsat. unfold __SSAT.
    replace ((1 <=? sat) && (sat <=? 32)) with false; [reflexivity | ].
    symmetry. apply andb_false_iff.
    destruct Hsat; [left; apply Z.leb_gt | right; apply Z.leb_gt]; lia.
Qed.

Lemma SSAT_clamps_witness :
  (1 <= 8 <= 32 ->
   __SSAT 300 8 = clamp (- 2 ^ (8 - 1)) (2 ^ (8 - 1) - 1) 300) /\
  (8 < 1 \/ 32 < 8 -> __SSAT 300 8 = 300).
Proof.
  apply (SSAT_clamps 300 8).
  unfold is_int32. change (2 ^ 31) with 2147483648. lia.
Defined.

(** X13: for a saturation width from 0 to 31, [__USAT] clamps a 32-bit
    signed value into the unsigned range of that width, from 0 to 2^sat-1;
    for a larger width it returns the value converted to [uint32_t], so a
    negative value comes back as a large positive one. *)
Theorem USAT_clamps (val sat : Z) :
  is_int32 val ->
  (0 <= sat <= 31 -> __USAT val sat = clamp 0 (2 ^ sat - 1) val) /\
  (31 < sat -> __USAT val sat = val mod 2 ^ 32).
Proof.
  intros Hval. split.
  - apply USAT_in_range. exact Hval.
  - intros Hsat. unfold __USAT.
    replace (sat <=? 31) with false by (symmetry; apply Z.leb_gt; lia).
    reflexivity.
Qed.

Lemma USAT_clamps_witness :
  (0 <= 8 <= 31 -> __USAT (-5) 8 = clamp 0 (2 ^ 8 - 1) (-5)) /\
  (31 < 8 -> __USAT (-5) 8 = (-5) mod 2 ^ 32).
Proof.
  apply (USAT_clamps (-5) 8).
  unfold is_int32. change (2 ^ 31) with 2147483648. lia.
Defined.

Lemma clip_q63_to_q31_clamp (x : Z) :
  is_int64 x ->
  clip_q63_to_q31 x = clamp (- 2 ^ 31) (2 ^ 31 - 1) x.
Proof.
  unfold is_int64, clip_q63_to_q31, clamp. intros H.
  rewrite !Z.shiftr_div_pow2 by lia.
  change (2 ^ 63) with 9223372036854775808 in *.
  change (2 ^ 32) with 4294967296 in *.
  change (2 ^ 31) with 2147483648 in *.
  assert (Hs : x / 9223372036854775808 = 0 \/ x / 9223372036854775808 = -1)
    by (Z.div_mod_to_equations; lia).
  assert (Hhi : s32 (x / 4294967296) = x / 4294967296).
  { apply s32_small. unfold is_int32. change (2 ^ 31) with 2147483648.
    Z.div_mod_to_equations. lia. }
  rewrite Hhi.
  assert (Hlo : s32 x = (x + 2147483648) mod 4294967296 - 2147483648)
    by reflexivity.
  destruct (Z.eqb_spec (x / 4294967296) (s32 x / 2147483648)) as [E | E];
    cbn [negb]; rewrite Hlo in E.
  - rewrite Hlo. Z.div_mod_to_equations. lia.
  - destruct Hs as [Hs | Hs]; rewrite Hs.
    + change (s32 (Z.lxor 2147483647 (s32 0))) with 2147483647.
      Z.div_mod_to_equations. lia.
    + change (s32 (Z.lxor 2147483647 (s32 (-1)))) with (-2147483648).
      Z.div_mod_to_equations. lia.
Qed.

Lemma clamp_int32 (x : Z) : is_int32 (clamp (- 2 ^ 31) (2 ^ 31 - 1) x).
Proof.
  unfold is_int32, clamp. change (2 ^ 31) with 2147483648. lia.
Qed.

(** X14: [clip_q63_to_q31] saturates a 64-bit signed value into the 32-bit
    signed range, so that [__QADD] and [__QSUB] are the saturating sum and
    difference of two 32-bit signed values: the exact result when it fits,
    2147483647 or -2147483648 when it does not. *)
Theorem QADD_QSUB_saturate (x y : Z) :
  is_int32 x -> is_int32 y ->
  (forall w, is_int64 w ->
             clip_q63_to_q31 w = clamp (- 2 ^ 31) (2 ^ 31 - 1) w) /\
  __QADD x y = clamp (- 2 ^ 31) (2 ^ 31 - 1) (x + y) /\
  __QSUB x y = clamp (- 2 ^ 31) (2 ^ 31 - 1) (x - y).
Proof.
  intros Hx Hy. split; [exact clip_q63_to_q31_clamp | ].
  unfold __QADD, __QSUB, is_int32 in *.
  change (2 ^ 31) with 2147483648 in *.
  assert (Ha : is_int64 (x + y))
    by (unfold is_int64; change (2 ^ 63) with 9223372036854775808; lia).
  assert (Hs : is_int64 (x - y))
    by (unfold is_int64; change (2 ^ 63) with 9223372036854775808; lia).
  rewrite (s64_small _ Ha), (s64_small _ Hs).
  rewrite (clip_q63_to_q31_clamp _ Ha), (clip_q63_to_q31_clamp _ Hs).
  split; apply s32_small; apply clamp_int32.
Qed.

Lemma QADD_QSUB_saturate_witness :
  (forall w, is_int64 w ->
             clip_q63_to_q31 w = clamp (- 2 ^ 31) (2 ^ 31 - 1) w) /\
  __QADD 2147483647 5 = clamp (- 2 ^ 31) (2 ^ 31 - 1) (2147483647 + 5) /\
  __QSUB 2147483647 5 = clamp (- 2 ^ 31) (2 ^ 31 - 1) (2147483647 - 5).
Proof.
  apply (QADD_QSUB_saturate 2147483647 5);
    unfold is_int32; change (2 ^ 31) with 2147483648; lia.
Defined.

(** X15: [clip_q31_to_q15] saturates a 32-bit signed value into the 16-bit
    signed range, from -32768 to 32767. *)
Theorem clip_q31_to_q15_saturates (x : Z) :
  is_int32 x ->
  clip_q31_to_q15 x = clamp (- 2 ^ 15) (2 ^ 15 - 1) x.
Proof.
  intros H. unfold clip_q31_to_q15, clamp.
  rewrite (s32_small x H).
  rewrite !Z.shiftr_div_pow2 by lia.
  unfold is_int32 in H.
  change (2 ^ 31) with 2147483648 in *.
  change (2 ^ 16) with 65536 in *.
  change (2 ^ 15) with 32768 in *.
  assert (Hs : x / 2147483648 = 0 \/ x / 2147483648 = -1)
    by (Z.div_mod_to_equations; lia).
  assert (Hhi : s32 (x / 65536) = x / 65536).
  { apply s32_small. unfold is_int32. change (2 ^ 31) with 2147483648.
    Z.div_mod_to_equations. lia. }
  rewrite Hhi.
  assert (Hlo : s16 x = (x + 32768) mod 65536 - 32768) by reflexivity.
  destruct (Z.eqb_spec (x / 65536) (x / 32768)) as [E | E]; cbn [negb].
  - rewrite Hlo. Z.div_mod_to_equations. lia.
  - destruct Hs as [Hs | Hs]; rewrite Hs.
    + change (s16 (Z.lxor 32767 (s16 0))) with 32767.
      Z.div_mod_to_equations. lia.
    + change (s16 (Z.lxor 32767 (s16 (-1)))) with (-32768).
      Z.div_mod_to_equations. lia.
Qed.

Lemma clip_q31_to_q15_saturates_witness :
  clip_q31_to_q15 (-40000) = clamp (- 2 ^ 15) (2 ^ 15 - 1) (-40000).
Proof.
  apply (clip_q31_to_q15_saturates (-40000)).
  unfold is_int32. change (2 ^ 31) with 2147483648. lia.
Defined.

Lemma land_0xFF (a : Z) : Z.land a 0xFF = a mod 256.
Proof. change 0xFF with (Z.ones 8). rewrite Z.land_ones by lia. reflexivity. Qed.

Lemma abs_diff_small (a b : Z) :
  is_uint32 a -> is_uint32 b -> abs_diff a b = Z.abs (a - b).
Proof.
  unfold is_uint32, abs_diff, u32. rewrite uint32_mod_value. intros Ha Hb.
  rewrite Z.gtb_ltb. destruct (Z.ltb_spec b a);
    rewrite Z.mod_small by lia; lia.
Qed.

(** [__USAD8] as a sum over the four byte lanes. *)
Lemma USAD8_lanes (x y : Z) :
  __USAD8 x y
  = Z.abs (x mod 256 - y mod 256)
    + Z.abs ((x / 2 ^ 8) mod 256 - (y / 2 ^ 8) mod 256)
    + Z.abs ((x / 2 ^ 16) mod 256 - (y / 2 ^ 16) mod 256)
    + Z.abs ((x / 2 ^ 24) mod 256 - (y / 2 ^ 24) mod 256).
Proof.
  unfold __USAD8. rewrite !land_0xFF, !Z.shiftr_div_pow2 by lia.
  pose proof (Z.mod_pos_bound x 256 ltac:(lia)).
  pose proof (Z.mod_pos_bound y 256 ltac:(lia)).
  pose proof (Z.mod_pos_bound (x / 2 ^ 8) 256 ltac:(lia)).
  pose proof (Z.mod_pos_bound (y / 2 ^ 8) 256 ltac:(lia)).
  pose proof (Z.mod_pos_bound (x / 2 ^ 16) 256 ltac:(lia)).
  pose proof (Z.mod_pos_bound (y / 2 ^ 16) 256 ltac:(lia)).
  pose proof (Z.mod_pos_bound (x / 2 ^ 24) 256 ltac:(lia)).
  pose proof (Z.mod_pos_bound (y / 2 ^ 24) 256 ltac:(lia)).
  rewrite !abs_diff_small
    by (unfold is_uint32; rewrite uint32_mod_value; lia).
  set (d0 := Z.abs (x mod 256 - y mod 256)).
  set (d1 := Z.abs ((x / 2 ^ 8) mod 256 - (y / 2 ^ 8) mod 256)).
  set (d2 := Z.abs ((x / 2 ^ 16) mod 256 - (y / 2 ^ 16) mod 256)).
  set (d3 := Z.abs ((x / 2 ^ 24) mod 256 - (y / 2 ^ 24) mod 256)).
  assert (0 <= d0 <= 255) by (unfold d0; lia).
  assert (0 <= d1 <= 255) by (unfold d1; lia).
  assert (0 <= d2 <= 255) by (unfold d2; lia).
  assert (0 <= d3 <= 255) by (unfold d3; lia).
  rewrite (u32_small (d0 + d1))
    by (unfold is_uint32; rewrite uint32_mod_value; lia).
  rewrite (u32_small (d0 + d1 + d2))
    by (unfold is_uint32; rewrite uint32_mod_value; lia).
  rewrite (u32_small (d0 + d1 + d2 + d3))
    by (unfold is_uint32; rewrite uint32_mod_value; lia).
  reflexivity.
Qed.

Lemma USADA8_lanes (x y acc : Z) :
  __USADA8 x y acc
  = (acc + (Z.abs (x mod 256 - y mod 256)
            + Z.abs ((x / 2 ^ 8) mod 256 - (y / 2 ^ 8) mod 256)
            + Z.abs ((x / 2 ^ 16) mod 256 - (y / 2 ^ 16) mod 256)
            + Z.abs ((x / 2 ^ 24) mod 256 - (y / 2 ^ 24) mod 256)))
    mod 2 ^ 32.
Proof.
  unfold __USADA8. rewrite !land_0xFF, !Z.shiftr_div_pow2 by lia.
  pose proof (Z.mod_pos_bound x 256 ltac:(lia)).
  pose proof (Z.mod_pos_bound y 256 ltac:(lia)).
  pose proof (Z.mod_pos_bound (x / 2 ^ 8) 256 ltac:(lia)).
  pose proof (Z.mod_pos_bound (y / 2 ^ 8) 256 ltac:(lia)).
  pose proof (Z.mod_pos_bound (x / 2 ^ 16) 256 ltac:(lia)).
  pose proof (Z.mod_pos_bound (y / 2 ^ 16) 256 ltac:(lia)).
  pose proof (Z.mod_pos_bound (x / 2 ^ 24) 256 ltac:(lia)).
  pose proof (Z.mod_pos_bound (y / 2 ^ 24) 256 ltac:(lia)).
  rewrite !abs_diff_small
    by (unfold is_uint32; rewrite uint32_mod_value; lia).
  set (d0 := Z.abs (x mod 256 - y mod 256)).
  set (d1 := Z.abs ((x / 2 ^ 8) mod 256 - (y / 2 ^ 8) mod 256)).
  set (d2 := Z.abs ((x / 2 ^ 16) mod 256 - (y / 2 ^ 16) mod 256)).
  set (d3 := Z.abs ((x / 2 ^ 24) mod 256 - (y / 2 ^ 24) mod 256)).
  unfold u32. change UINT32_MOD with (2 ^ 32).
  rewrite (Zplus_mod_idemp_l (acc + d0)).
  rewrite (Zplus_mod_idemp_l (acc + d0 + d1)).
  rewrite (Zplus_mod_idemp_l (acc + d0 + d1 + d2)).
  f_equal. lia.
Qed.

(** A [uint32_t] is made of its four bytes. *)
Lemma uint32_bytes (x : Z) :
  is_uint32 x ->
  x = x mod 256 + 2 ^ 8 * ((x / 2 ^ 8) mod 256)
      + 2 ^ 16 * ((x / 2 ^ 16) mod 256) + 2 ^ 24 * ((x / 2 ^ 24) mod 256).
Proof.
  unfold is_uint32. rewrite uint32_mod_value. intros H.
  change (2 ^ 8) with 256. change (2 ^ 16) with 65536.
  change (2 ^ 24) with 16777216.
  Z.div_mod_to_equations. lia.
Qed.

(** X16: on 32-bit words [__USAD8] is a distance between the two vectors
    of four bytes: it lies between 0 and 1020, is symmetric, is 0 exactly
    for equal words and satisfies the triangle inequality; [__USADA8] adds
    it to its accumulator modulo 2^32. *)
Theorem USAD8_is_distance (x y z acc : Z) :
  is_uint32 x -> is_uint32 y -> is_uint32 acc ->
  0 <= __USAD8 x y <= 1020 /\
  __USAD8 x y = __USAD8 y x /\
  (__USAD8 x y = 0 <-> x = y) /\
  __USAD8 x z <= __USAD8 x y + __USAD8 y z /\
  __USADA8 x y acc = (acc + __USAD8 x y) mod 2 ^ 32.
Proof.
  intros Hx Hy Hacc.
  rewrite USADA8_lanes.
  rewrite !USAD8_lanes in *.
  pose proof (uint32_bytes x Hx) as Ex.
  pose proof (uint32_bytes y Hy) as Ey.
  pose proof (Z.mod_pos_bound x 256 ltac:(lia)).
  pose proof (Z.mod_pos_bound y 256 ltac:(lia)).
  pose proof (Z.mod_pos_bound (x / 2 ^ 8) 256 ltac:(lia)).
  pose proof (Z.mod_pos_bound (y / 2 ^ 8) 256 ltac:(lia)).
  pose proof (Z.mod_pos_bound (x / 2 ^ 16) 256 ltac:(lia)).
  pose proof (Z.mod_pos_bound (y / 2 ^ 16) 256 ltac:(lia)).
  pose proof (Z.mod_pos_bound (x / 2 ^ 24) 256 ltac:(lia)).
  pose proof (Z.mod_pos_bound (y / 2 ^ 24) 256 ltac:(lia)).
  split; [lia | ]. split; [lia | ]. split; [ | split].
  - split; [intros E; lia | intros E; subst y; lia].
  - pose proof (Z.mod_pos_bound z 256 ltac:(lia)).
    pose proof (Z.mod_pos_bound (z / 2 ^ 8) 256 ltac:(lia)).
    pose proof (Z.mod_pos_bound (z / 2 ^ 16) 256 ltac:(lia)).
    pose proof (Z.mod_pos_bound (z / 2 ^ 24) 256 ltac:(lia)).
    clear Ex Ey. lia.
  - reflexivity.
Qed.

Lemma USAD8_is_distance_witness :
  0 <= __USAD8 16909060 67305985 <= 1020 /\
  __USAD8 16909060 67305985 = __USAD8 67305985 16909060 /\
  (__USAD8 16909060 67305985 = 0 <-> 16909060 = 67305985) /\
  __USAD8 16909060 4294967295
  <= __USAD8 16909060 67305985 + __USAD8 67305985 4294967295 /\
  __USADA8 16909060 67305985 7
  = (7 + __USAD8 16909060 67305985) mod 2 ^ 32.
Proof.
  apply (USAD8_is_distance 16909060 67305985 4294967295 7);
    unfold is_uint32; rewrite uint32_mod_value; lia.
Defined.

(** ** Single bits *)

Lemma land_pow2 (a k : Z) :
  0 <= k -> Z.land a (2 ^ k) = if Z.testbit a k then 2 ^ k else 0.
Proof.
  intros Hk. apply Z.bits_inj'. intros i Hi.
  rewrite Z.land_spec, Z.pow2_bits_eqb by lia.
  destruct (Z.eqb_spec k i) as [E | E].
  - subst i. destruct (Z.testbit a k); simpl.
    + rewrite Z.pow2_bits_true by lia. reflexivity.
    + rewrite Z.bits_0. reflexivity.
  - rewrite andb_false_r. destruct (Z.testbit a k).
    + rewrite Z.pow2_bits_false by lia. reflexivity.
    + rewrite Z.bits_0. reflexivity.
Qed.

Lemma testbit_top (a k : Z) :
  0 <= k -> 0 <= a < 2 ^ (k + 1) -> Z.testbit a k = (2 ^ k <=? a).
Proof.
  intros Hk Ha.
  assert (Hp : 0 < 2 ^ k) by (apply Z.pow_pos_nonneg; lia).
  rewrite Z.pow_add_r in Ha by lia. change (2 ^ 1) with 2 in Ha.
  destruct (Z.leb_spec (2 ^ k) a) as [L | L].
  - apply Z.testbit_true; [lia | ].
    assert (a / 2 ^ k = 1)
      by (symmetry; apply (Z.div_unique a (2 ^ k) 1 (a - 2 ^ k)); lia).
    replace (a / 2 ^ k) with 1 by lia. reflexivity.
  - apply Z.testbit_false; [lia | ].
    rewrite Z.div_small by lia. reflexivity.
Qed.

Lemma clz_loop_spec (data : Z) (fuel : nat) :
  forall count : Z,
    0 <= count <= 31 ->
    32 - count <= Z.of_nat fuel ->
    0 < data < 2 ^ (32 - count) ->
    exists r,
      clz_loop fuel data count (2 ^ (31 - count)) = Some r /\
      count <= r <= 31 /\ 2 ^ (31 - r) <= data < 2 ^ (32 - r).
Proof.
  induction fuel as [ | fuel IH]; intros count Hc Hfuel Hd.
  - change (Z.of_nat 0) with 0 in Hfuel. lia.
  - cbn [clz_loop].
    rewrite land_pow2 by lia.
    rewrite (testbit_top data (31 - count)) by
      (try lia; replace (31 - count + 1) with (32 - count) by lia; lia).
    assert (Hp : 0 < 2 ^ (31 - count)) by (apply Z.pow_pos_nonneg; lia).
    destruct (Z.leb_spec (2 ^ (31 - count)) data) as [L | L].
    + replace (2 ^ (31 - count) =? 0) with false
        by (symmetry; apply Z.eqb_neq; lia).
      exists count. split; [reflexivity | ]. lia.
    + rewrite Z.eqb_refl.
      assert (Hc31 : count < 31).
      { destruct (Z.eq_dec count 31) as [E | E]; [ | lia].
        subst count. change (2 ^ (31 - 31)) with 1 in L. lia. }
      rewrite (u32_small (count + 1))
        by (unfold is_uint32; rewrite uint32_mod_value; lia).
      rewrite Z.shiftr_div_pow2 by lia. change (2 ^ 1) with 2.
      replace (2 ^ (31 - count) / 2) with (2 ^ (31 - (count + 1))).
      * destruct (IH (count + 1)) as (r & Hr & Hrange & Hbits).
        -- lia.
        -- rewrite Nat2Z.inj_succ in Hfuel. lia.
        -- replace (32 - (count + 1)) with (31 - count) by lia. lia.
        -- exists r. split; [exact Hr | ]. lia.
      * assert (E : 2 ^ (31 - count) = 2 ^ (31 - (count + 1)) * 2).
        { replace (31 - count) with (Z.succ (31 - (count + 1))) by lia.
          rewrite Z.pow_succ_r by lia. lia. }
        rewrite E, Z.div_mul by lia. reflexivity.
Qed.

(** X17: given at least 32 units of fuel, [__CLZ] returns on every 32-bit
    word: 32 for the word 0, and otherwise the number c of leading zero
    bits, from 0 to 31, the one with 2^(31-c) <= data < 2^(32-c). *)
Theorem CLZ_counts_leading_zeros (fuel : nat) (data : Z) :
  (32 <= fuel)%nat -> is_uint32 data ->
  (data = 0 -> __CLZ fuel data = Some 32) /\
  (data <> 0 ->
   exists c, __CLZ fuel data = Some c /\ 0 <= c <= 31 /\
             2 ^ (31 - c) <= data < 2 ^ (32 - c)).
Proof.
  intros Hfuel Hd. unfold is_uint32 in Hd. rewrite uint32_mod_value in Hd.
  unfold __CLZ. split.
  - intros ->. reflexivity.
  - intros Hnz.
    replace (data =? 0) with false by (symmetry; apply Z.eqb_neq; exact Hnz).
    destruct (clz_loop_spec data fuel 0) as (r & Hr & Hrange & Hbits).
    + lia.
    + lia.
    + change (2 ^ (32 - 0)) with 4294967296. lia.
    + change (2 ^ (31 - 0)) with 0x80000000 in Hr. rewrite Hr.
      exists r. unfold u8. change (2 ^ 8) with 256.
      rewrite Z.mod_small by lia. split; [reflexivity | ]. lia.
Qed.

Lemma CLZ_counts_leading_zeros_witness :
  (1000 = 0 -> __CLZ 32 1000 = Some 32) /\
  (1000 <> 0 ->
   exists c, __CLZ 32 1000 = Some c /\ 0 <= c <= 31 /\
             2 ^ (31 - c) <= 1000 < 2 ^ (32 - c)).
Proof.
  apply (CLZ_counts_leading_zeros 32 1000).
  - apply le_n.
  - unfold is_uint32. rewrite uint32_mod_value. lia.
Defined.

Lemma uint32_high_bits (a i : Z) :
  is_uint32 a -> 32 <= i -> Z.testbit a i = false.
Proof.
  unfold is_uint32. rewrite uint32_mod_value. intros Ha Hi.
  rewrite <- (Z.mod_small a (2 ^ 32)) by (change (2 ^ 32) with 4294967296; lia).
  apply Z.mod_pow2_bits_high. lia.
Qed.

Lemma uint32_of_bits (a : Z) :
  0 <= a -> (forall i, 32 <= i -> Z.testbit a i = false) -> is_uint32 a.
Proof.
  intros Ha Hbits. unfold is_uint32. rewrite uint32_mod_value.
  assert (E : a mod 2 ^ 32 = a).
  { apply Z.bits_inj'. intros i Hi.
    destruct (Z_lt_le_dec i 32) as [L | L].
    - apply Z.mod_pow2_bits_low. lia.
    - rewrite Z.mod_pow2_bits_high by lia. symmetry. apply Hbits. exact L. }
  pose proof (Z.mod_pos_bound a (2 ^ 32) ltac:(reflexivity)) as Hb.
  rewrite E in Hb. change (2 ^ 32) with 4294967296 in Hb. exact Hb.
Qed.

Lemma uint32_ext (a b : Z) :
  is_uint32 a -> is_uint32 b ->
  (forall i, 0 <= i < 32 -> Z.testbit a i = Z.testbit b i) -> a = b.
Proof.
  intros Ha Hb H. apply Z.bits_inj'. intros i Hi.
  destruct (Z_lt_le_dec i 32) as [L | L].
  - apply H. lia.
  - rewrite !uint32_high_bits by assumption. reflexivity.
Qed.

Lemma u32_bits (a i : Z) :
  0 <= i < 32 -> Z.testbit (u32 a) i = Z.testbit a i.
Proof.
  intros Hi. unfold u32. change UINT32_MOD with (2 ^ 32).
  apply Z.mod_pow2_bits_low. lia.
Qed.

Lemma u32_is_uint32 (a : Z) : is_uint32 (u32 a).
Proof.
  unfold is_uint32, u32. apply Z.mod_pos_bound. reflexivity.
Qed.

Lemma ROR_is_uint32 (x n : Z) : is_uint32 x -> is_uint32 (__ROR x n).
Proof.
  intros Hx. unfold __ROR.
  pose proof (Z.mod_pos_bound n 32 ltac:(lia)) as Hk.
  destruct (n mod 32 =? 0); [exact Hx | ].
  pose proof (u32_is_uint32 (Z.shiftl x (u32 (32 - n mod 32)))) as Hu.
  apply uint32_of_bits.
  - apply Z.lor_nonneg. split.
    + apply Z.shiftr_nonneg. unfold is_uint32 in Hx. lia.
    + unfold is_uint32 in Hu. lia.
  - intros i Hi. rewrite Z.lor_spec, Z.shiftr_spec by lia.
    rewrite (uint32_high_bits x) by (try assumption; lia).
    rewrite (uint32_high_bits _ i Hu Hi). reflexivity.
Qed.

Lemma ROR_bits (x n i : Z) :
  is_uint32 x -> 0 <= i < 32 ->
  Z.testbit (__ROR x n) i = Z.testbit x ((i + n) mod 32).
Proof.
  intros Hx Hi. unfold __ROR.
  pose proof (Z.mod_pos_bound n 32 ltac:(lia)) as Hk.
  rewrite <- (Z.add_mod_idemp_r i n 32) by lia.
  set (k := n mod 32) in *.
  destruct (Z.eqb_spec k 0) as [E | E].
  - rewrite E, Z.add_0_r, Z.mod_small by lia. reflexivity.
  - rewrite (u32_small (32 - k))
      by (unfold is_uint32; rewrite uint32_mod_value; lia).
    rewrite Z.lor_spec, Z.shiftr_spec, u32_bits, Z.shiftl_spec by lia.
    destruct (Z_lt_le_dec (i + k) 32) as [L | L].
    + rewrite Z.mod_small by lia.
      rewrite (Z.testbit_neg_r x (i - (32 - k))) by lia.
      apply orb_false_r.
    + rewrite (uint32_high_bits x (i + k)) by (try assumption; lia).
      replace ((i + k) mod 32) with (i - (32 - k)); [reflexivity | ].
      apply (Z.mod_unique_pos (i + k) 32 1); lia.
Qed.

(** X18: [__ROR] rotates a 32-bit word to the right: bit i of the result
    is bit (i + n) mod 32 of the operand and the result is again a 32-bit
    word. Rotations compose by adding the counts, and rotating by the
    complement to 32 undoes a rotation. *)
Theorem ROR_rotates (x a b : Z) :
  is_uint32 x ->
  (forall i, 0 <= i < 32 ->
             Z.testbit (__ROR x a) i = Z.testbit x ((i + a) mod 32)) /\
  is_uint32 (__ROR x a) /\
  __ROR (__ROR x a) b = __ROR x (a + b) /\
  __ROR (__ROR x a) (32 - a mod 32) = x.
Proof.
  intros Hx.
  assert (Hcomp : forall c, __ROR (__ROR x a) c = __ROR x (a + c)).
  { intros c. apply uint32_ext.
    - apply ROR_is_uint32, ROR_is_uint32, Hx.
    - apply ROR_is_uint32, Hx.
    - intros i Hi.
      pose proof (Z.mod_pos_bound (i + c) 32 ltac:(lia)) as Hm.
      rewrite (ROR_bits (__ROR x a)) by (try apply ROR_is_uint32; assumption).
      rewrite !(ROR_bits x) by assumption.
      rewrite Z.add_mod_idemp_l by lia. f_equal. f_equal. lia. }
  split; [intros i Hi; apply ROR_bits; assumption | ].
  split; [apply ROR_is_uint32; exact Hx | ].
  split; [apply Hcomp | ].
  rewrite Hcomp. unfold __ROR.
  replace ((a + (32 - a mod 32)) mod 32) with 0; [reflexivity | ].
  symmetry. pose proof (Z.div_mod a 32 ltac:(lia)) as Hd.
  replace (a + (32 - a mod 32)) with (0 + (a / 32 + 1) * 32) by lia.
  rewrite Z.mod_add by lia. reflexivity.
Qed.

Lemma ROR_rotates_witness :
  (forall i, 0 <= i < 32 ->
             Z.testbit (__ROR 305419896 8) i
             = Z.testbit 305419896 ((i + 8) mod 32)) /\
  is_uint32 (__ROR 305419896 8) /\
  __ROR (__ROR 305419896 8) 40 = __ROR 305419896 (8 + 40) /\
  __ROR (__ROR 305419896 8) (32 - 8 mod 32) = 305419896.
Proof.
  apply (ROR_rotates 305419896 8 40).
  unfold is_uint32. rewrite uint32_mod_value. lia.
Defined.

Lemma land_1_bits (a i : Z) :
  0 <= i -> Z.testbit (Z.land a 1) i = if i =? 0 then Z.testbit a 0 else false.
Proof.
  intros Hi. rewrite Z.land_spec. change 1 with (2 ^ 0) at 1.
  rewrite Z.pow2_bits_eqb by lia.
  destruct (Z.eqb_spec i 0) as [E | E].
  - subst i. simpl. apply andb_true_r.
  - replace (0 =? i) with false by (symmetry; apply Z.eqb_neq; lia).
    apply andb_false_r.
Qed.

(** The loop of [__RBIT] after j rounds: the low j+1 bits of [result] are
    the low j+1 bits of the operand [v] in reverse order. *)
Lemma rbit_loop_spec (v : Z) (fuel : nat) :
  is_uint32 v ->
  forall j result : Z,
    0 <= j <= 31 ->
    32 - j <= Z.of_nat fuel ->
    (forall i, 0 <= i <= j -> Z.testbit result i = Z.testbit v (j - i)) ->
    exists result' s',
      rbit_loop fuel (Z.shiftr v (j + 1)) result (31 - j)
      = Some (result', s') /\
      forall i, 0 <= i < 32 ->
        Z.testbit (u32 (Z.shiftl result' s')) i = Z.testbit v (31 - i).
Proof.
  intros Hv. induction fuel as [ | fuel IH]; intros j result Hj Hfuel Hinv.
  - change (Z.of_nat 0) with 0 in Hfuel. lia.
  - cbn [rbit_loop].
    destruct (Z.eqb_spec (Z.shiftr v (j + 1)) 0) as [E | E].
    + (* the remaining bits of the operand are zero *)
      exists result, (31 - j). split; [reflexivity | ].
      intros i Hi. rewrite u32_bits, Z.shiftl_spec by lia.
      destruct (Z_lt_le_dec i (31 - j)) as [L | L].
      * rewrite Z.testbit_neg_r by lia.
        replace (31 - i) with ((31 - i - (j + 1)) + (j + 1)) by lia.
        rewrite <- Z.shiftr_spec by lia. rewrite E. symmetry. apply Z.bits_0.
      * rewrite Hinv by lia. f_equal. lia.
    + assert (Hj30 : j <= 30).
      { destruct (Z_le_gt_dec j 30) as [L | L]; [exact L | ].
        exfalso. apply E. apply Z.bits_inj'. intros i Hi.
        rewrite Z.shiftr_spec, Z.bits_0 by lia.
        apply uint32_high_bits; [exact Hv | lia]. }
      rewrite (u32_small (31 - j - 1))
        by (unfold is_uint32; rewrite uint32_mod_value; lia).
      rewrite Z.shiftr_shiftr by lia.
      replace (j + 1 + 1) with ((j + 1) + 1) by lia.
      replace (31 - j - 1) with (31 - (j + 1)) by lia.
      apply IH.
      * lia.
      * rewrite Nat2Z.inj_succ in Hfuel. lia.
      * intros i Hi.
        rewrite Z.lor_spec, land_1_bits by lia.
        destruct (Z.eqb_spec i 0) as [Ei | Ei].
        -- subst i. rewrite u32_bits, Z.shiftl_spec by lia.
           rewrite Z.testbit_neg_r by lia. rewrite orb_false_l.
           rewrite Z.shiftr_spec by lia. f_equal. lia.
        -- rewrite orb_false_r.
           destruct (Z_lt_le_dec i 32) as [L | L]; [ | lia].
           rewrite u32_bits, Z.shiftl_spec by lia.
           rewrite Hinv by lia. f_equal. lia.
Qed.

Lemma RBIT_bits (fuel : nat) (v : Z) :
  (32 <= fuel)%nat -> is_uint32 v ->
  exists r, __RBIT fuel v = Some r /\ is_uint32 r /\
            forall i, 0 <= i < 32 -> Z.testbit r i = Z.testbit v (31 - i).
Proof.
  intros Hfuel Hv. unfold __RBIT.
  change (u32 (u32 (4 * 8) - 1)) with (31 - 0).
  change (Z.shiftr v 1) with (Z.shiftr v (0 + 1)).
  destruct (rbit_loop_spec v fuel Hv 0 v) as (r' & s' & Hr & Hbits).
  - lia.
  - lia.
  - intros i Hi. f_equal. lia.
  - rewrite Hr. eexists. split; [reflexivity | ].
    split; [apply u32_is_uint32 | exact Hbits].
Qed.

(** X19: given at least 32 units of fuel, [__RBIT] returns on every 32-bit
    word the word with the bits in reverse order (bit i of the result is
    bit 31 - i of the operand), and reversing twice gives the operand
    back. *)
Theorem RBIT_reverses (fuel : nat) (v : Z) :
  (32 <= fuel)%nat -> is_uint32 v ->
  exists r,
    __RBIT fuel v = Some r /\ is_uint32 r /\
    (forall i, 0 <= i < 32 -> Z.testbit r i = Z.testbit v (31 - i)) /\
    __RBIT fuel r = Some v.
Proof.
  intros Hfuel Hv.
  destruct (RBIT_bits fuel v Hfuel Hv) as (r & Hr & Hur & Hbits).
  exists r. split; [exact Hr | ]. split; [exact Hur | ].
  split; [exact Hbits | ].
  destruct (RBIT_bits fuel r Hfuel Hur) as (r2 & Hr2 & Hur2 & Hbits2).
  rewrite Hr2. f_equal. apply uint32_ext; try assumption.
  intros i Hi. rewrite Hbits2, Hbits by lia. f_equal. lia.
Qed.

Lemma RBIT_reverses_witness :
  exists r,
    __RBIT 32 1 = Some r /\ is_uint32 r /\
    (forall i, 0 <= i < 32 -> Z.testbit r i = Z.testbit 1 (31 - i)) /\
    __RBIT 32 r = Some 1.
Proof.
  apply (RBIT_reverses 32 1).
  - apply le_n.
  - unfold is_uint32. rewrite uint32_mod_value. lia.
Defined.

Lemma land_hi16 (a : Z) :
  is_uint32 a -> Z.land a 0xFFFF0000 = (a / 2 ^ 16) * 2 ^ 16.
Proof.
  intros Ha. rewrite <- Z.shiftr_div_pow2, <- Z.shiftl_mul_pow2 by lia.
  change 0xFFFF0000 with (Z.shiftl (Z.ones 16) 16).
  apply Z.bits_inj'. intros i Hi.
  rewrite Z.land_spec, !Z.shiftl_spec by lia.
  destruct (Z_lt_le_dec i 16) as [L | L].
  - rewrite (Z.testbit_neg_r (Z.ones 16)) by lia.
    rewrite (Z.testbit_neg_r (Z.shiftr a 16)) by lia. apply andb_false_r.
  - rewrite Z.shiftr_spec by lia. replace (i - 16 + 16) with i by lia.
    destruct (Z_lt_le_dec i 32) as [L32 | L32].
    + rewrite Z.ones_spec_low by lia. apply andb_true_r.
    + rewrite Z.ones_spec_high by lia.
      rewrite (uint32_high_bits a i Ha L32). reflexivity.
Qed.

Lemma lor_lanes16 (h l : Z) :
  0 <= h -> 0 <= l < 2 ^ 16 -> Z.lor (h * 2 ^ 16) l = h * 2 ^ 16 + l.
Proof.
  intros Hh Hl.
  assert (Hd : Z.land (h * 2 ^ 16) l = 0).
  { rewrite <- Z.shiftl_mul_pow2 by lia.
    apply Z.bits_inj'. intros i Hi.
    rewrite Z.land_spec, Z.bits_0, Z.shiftl_spec by lia.
    destruct (Z_lt_le_dec i 16) as [L | L].
    - rewrite Z.testbit_neg_r by lia. reflexivity.
    - rewrite <- (Z.mod_small l (2 ^ 16)) by lia.
      rewrite Z.mod_pow2_bits_high by lia. apply andb_false_r. }
  rewrite <- (Z.lxor_lor _ _ Hd). symmetry. apply Z.add_nocarry_lxor. exact Hd.
Qed.

(** X20: on 32-bit words [__SSUB16] subtracts the two 16-bit halves
    separately, each modulo 2^16, with no borrow from the low half into the
    high half; the result is a 32-bit word. *)
Theorem SSUB16_lanes (op1 op2 : Z) :
  is_uint32 op1 -> is_uint32 op2 ->
  is_uint32 (__SSUB16 op1 op2) /\
  __SSUB16 op1 op2 mod 2 ^ 16 = (op1 mod 2 ^ 16 - op2 mod 2 ^ 16) mod 2 ^ 16 /\
  __SSUB16 op1 op2 / 2 ^ 16 = (op1 / 2 ^ 16 - op2 / 2 ^ 16) mod 2 ^ 16.
Proof.
  intros H1 H2. unfold __SSUB16.
  rewrite (land_hi16 op1 H1), (land_hi16 op2 H2).
  change 0xFFFF with (Z.ones 16). rewrite Z.land_ones by lia.
  unfold u32, is_uint32 in *. rewrite uint32_mod_value in *.
  change (2 ^ 16) with 65536.
  assert (EA : (op1 / 65536 * 65536 - op2 / 65536 * 65536) mod 4294967296
               = ((op1 / 65536 - op2 / 65536) mod 65536) * 65536)
    by (Z.div_mod_to_equations; lia).
  assert (EB : ((op1 - op2) mod 4294967296) mod 65536
               = (op1 mod 65536 - op2 mod 65536) mod 65536)
    by (Z.div_mod_to_equations; lia).
  rewrite EA, EB.
  pose proof (Z.mod_pos_bound (op1 / 65536 - op2 / 65536) 65536 ltac:(lia)) as HA.
  pose proof (Z.mod_pos_bound (op1 mod 65536 - op2 mod 65536) 65536 ltac:(lia)) as HB.
  set (A := (op1 / 65536 - op2 / 65536) mod 65536) in *.
  set (B := (op1 mod 65536 - op2 mod 65536) mod 65536) in *.
  assert (E : Z.lor (A * 65536) B = A * 65536 + B)
    by (apply (lor_lanes16 A B); change (2 ^ 16) with 65536; lia).
  rewrite !E.
  split; [lia | ]. split.
  - rewrite Z.add_comm, Z.mod_add by lia. apply Z.mod_small. lia.
  - rewrite Z.add_comm, Z.div_add by lia. rewrite Z.div_small by lia. lia.
Qed.

Lemma SSUB16_lanes_witness :
  is_uint32 (__SSUB16 65536 1) /\
  __SSUB16 65536 1 mod 2 ^ 16 = (65536 mod 2 ^ 16 - 1 mod 2 ^ 16) mod 2 ^ 16 /\
  __SSUB16 65536 1 / 2 ^ 16 = (65536 / 2 ^ 16 - 1 / 2 ^ 16) mod 2 ^ 16.
Proof.
  apply (SSUB16_lanes 65536 1);
    unfold is_uint32; rewrite uint32_mod_value; lia.
Defined.

Lemma land_0x1F (a : Z) : Z.land a 0x1F = a mod 32.
Proof. change 0x1F with (Z.ones 5). rewrite Z.land_ones by lia. reflexivity. Qed.

Lemma asr_int32 (val k : Z) :
  is_int32 val -> 0 <= k -> is_int32 (val / 2 ^ k).
Proof.
  unfold is_int32. change (2 ^ 31) with 2147483648. intros Hv Hk.
  assert (Hp : 1 <= 2 ^ k) by (apply (pow2_bounds k k); lia).
  split.
  - apply Z.div_le_lower_bound; [lia | ]. nia.
  - apply Z.div_lt_upper_bound; [lia | ]. nia.
Qed.

(** X21: [__SSAT_ASR] and [__USAT_ASR] first shift the value right
    arithmetically by the low five bits of [shift], that is, divide it by
    2^(shift mod 32) rounding down, and then saturate the quotient like
    [__SSAT] (widths 1 to 32) and [__USAT] (widths 0 to 31). *)
Theorem SAT_ASR_shift_then_clamp (val sat shift : Z) :
  is_int32 val ->
  (1 <= sat <= 32 ->
   __SSAT_ASR val sat shift
   = clamp (- 2 ^ (sat - 1)) (2 ^ (sat - 1) - 1) (val / 2 ^ (shift mod 32))) /\
  (0 <= sat <= 31 ->
   __USAT_ASR val sat shift
   = clamp 0 (2 ^ sat - 1) (val / 2 ^ (shift mod 32))).
Proof.
  intros Hval.
  pose proof (Z.mod_pos_bound shift 32 ltac:(lia)) as Hk.
  pose proof (asr_int32 val (shift mod 32) Hval ltac:(lia)) as Hq.
  split; intros Hsat.
  - change (__SSAT_ASR val sat shift)
      with (__SSAT (Z.shiftr val (Z.land shift 0x1F)) sat).
    rewrite land_0x1F, Z.shiftr_div_pow2 by lia.
    apply SSAT_in_range; assumption.
  - change (__USAT_ASR val sat shift)
      with (__USAT (Z.shiftr val (Z.land shift 0x1F)) sat).
    rewrite land_0x1F, Z.shiftr_div_pow2 by lia.
    apply USAT_in_range; assumption.
Qed.

Lemma SAT_ASR_shift_then_clamp_witness :
  (1 <= 8 <= 32 ->
   __SSAT_ASR (-70000) 8 36
   = clamp (- 2 ^ (8 - 1)) (2 ^ (8 - 1) - 1) (-70000 / 2 ^ (36 mod 32))) /\
  (0 <= 8 <= 31 ->
   __USAT_ASR (-70000) 8 36
   = clamp 0 (2 ^ 8 - 1) (-70000 / 2 ^ (36 mod 32))).
Proof.
  apply (SAT_ASR_shift_then_clamp (-70000) 8 36).
  unfold is_int32. change (2 ^ 31) with 2147483648. lia.
Defined.

(** X22: for a 64-bit signed x and a 32-bit signed y, no intermediate
    64-bit result of [mult32x64] overflows: the product of the low word of
    x with y, the product of the high word of x with y, and the sum of the
    shifted low product and the high product are all 64-bit signed values;
    and the result is the product x * y divided by 2^32 and rounded
    down. *)
Theorem mult32x64_is_high_product (x y : Z) :
  is_int64 x -> is_int32 y ->
  is_int64 (Z.land x 0x00000000FFFFFFFF * y) /\
  is_int64 (Z.shiftr x 32 * y) /\
  is_int64 (Z.shiftr (Z.land x 0x00000000FFFFFFFF * y) 32
            + Z.shiftr x 32 * y) /\
  mult32x64 x y = (x * y) / 2 ^ 32.
Proof.
  unfold is_int64, is_int32, mult32x64. intros Hx Hy.
  change 0x00000000FFFFFFFF with (Z.ones 32).
  rewrite Z.land_ones, !Z.shiftr_div_pow2 by lia.
  change (2 ^ 63) with 9223372036854775808 in *.
  change (2 ^ 31) with 2147483648 in *.
  change (2 ^ 32) with 4294967296 in *.
  pose proof (Z.mod_pos_bound x 4294967296 ltac:(lia)) as Hlo.
  assert (Hhi : -2147483648 <= x / 4294967296 < 2147483648)
    by (Z.div_mod_to_equations; lia).
  set (lo := x mod 4294967296) in *. set (hi := x / 4294967296) in *.
  assert (Hx' : x = hi * 4294967296 + lo)
    by (unfold hi, lo; Z.div_mod_to_equations; lia).
  assert (Hloy : -9223372036854775808 <= lo * y < 9223372036854775808)
    by nia.
  assert (Hhiy : - 4611686018427387904 <= hi * y <= 4611686018427387904)
    by nia.
  assert (Hq : -2147483648 <= lo * y / 4294967296 < 2147483648).
  { split.
    - apply Z.div_le_lower_bound; [lia | ]. nia.
    - apply Z.div_lt_upper_bound; [lia | ]. nia. }
  split; [exact Hloy | ]. split; [lia | ]. split; [lia | ].
  rewrite (s64_small lo)
    by (unfold is_int64; change (2 ^ 63) with 9223372036854775808; lia).
  rewrite (s64_small hi)
    by (unfold is_int64; change (2 ^ 63) with 9223372036854775808; lia).
  rewrite !(s64_small (lo * y))
    by (unfold is_int64; change (2 ^ 63) with 9223372036854775808; lia).
  rewrite !(s64_small (hi * y))
    by (unfold is_int64; change (2 ^ 63) with 9223372036854775808; lia).
  rewrite (s64_small (lo * y / 4294967296))
    by (unfold is_int64; change (2 ^ 63) with 9223372036854775808; lia).
  rewrite s64_small
    by (unfold is_int64; change (2 ^ 63) with 9223372036854775808; lia).
  rewrite Hx'.
  replace ((hi * 4294967296 + lo) * y) with (lo * y + hi * y * 4294967296)
    by ring.
  rewrite Z.div_add by lia. reflexivity.
Qed.

Lemma mult32x64_is_high_product_witness :
  is_int64 (Z.land (-5000000000) 0x00000000FFFFFFFF * 3) /\
  is_int64 (Z.shiftr (-5000000000) 32 * 3) /\
  is_int64 (Z.shiftr (Z.land (-5000000000) 0x00000000FFFFFFFF * 3) 32
            + Z.shiftr (-5000000000) 32 * 3) /\
  mult32x64 (-5000000000) 3 = (-5000000000 * 3) / 2 ^ 32.
Proof.
  apply (mult32x64_is_high_product (-5000000000) 3).
  - unfold is_int64. change (2 ^ 63) with 9223372036854775808. lia.
  - unfold is_int32. change (2 ^ 31) with 2147483648. lia.
Defined.
